(** * Recap photo processing: a shallow embedding of [Recap-photo-processing.py]

    The script is glue code over the file system and three libraries
    (Pillow, piexif, iptcinfo3).  The embedding keeps the script's own
    control flow (loops, [try]/[except] boundaries, the order of calls) and
    path arithmetic as executable definitions, and takes the behaviour of
    the libraries as an interface ([Externals]) whose operations may fail
    and may change the file system. *)

From Stdlib Require Import ZArith Ascii PrimFloat DecimalString DecimalNat.
From stdpp Require Import base strings list gmap sets.

Local Open Scope Z_scope.
Local Open Scope nat_scope.

(** ** Strings: the few [str] methods the script relies on *)

Module Str.

(** [s.rfind(c)]: index of the last occurrence, [None] for Python's -1. *)
Fixpoint rfind (c : ascii) (s : string) : option nat :=
  match s with
  | EmptyString => None
  | String a s' =>
      match rfind c s' with
      | Some i => Some (S i)
      | None => if decide (a = c) then Some 0 else None
      end
  end.

(** [s[:i]] and [s[i:]] for [0 <= i]. *)
Fixpoint take (i : nat) (s : string) : string :=
  match i, s with
  | S i', String a s' => String a (take i' s')
  | _, _ => EmptyString
  end.

Fixpoint drop (i : nat) (s : string) : string :=
  match i, s with
  | S i', String _ s' => drop i' s'
  | _, _ => s
  end.

(** [c in s]. *)
Fixpoint contains (c : ascii) (s : string) : bool :=
  match s with
  | EmptyString => false
  | String a s' => bool_decide (a = c) || contains c s'
  end.

(** [s.split(c)], accumulating the current field in reverse. *)
Fixpoint split_go (c : ascii) (cur : string) (s : string) : list string :=
  match s with
  | EmptyString => [String.rev cur]
  | String a s' =>
      if decide (a = c) then String.rev cur :: split_go c EmptyString s'
      else split_go c (String a cur) s'
  end.
Definition split (c : ascii) (s : string) : list string :=
  split_go c EmptyString s.

(** [s.endswith(c)] for a one-character suffix. *)
Fixpoint ends_with (c : ascii) (s : string) : bool :=
  match s with
  | EmptyString => false
  | String a EmptyString => bool_decide (a = c)
  | String _ s' => ends_with c s'
  end.

(** [s.startswith(c)] for a one-character prefix. *)
Definition starts_with (c : ascii) (s : string) : bool :=
  match s with
  | String a _ => bool_decide (a = c)
  | EmptyString => false
  end.

(** [str(n)], as an f-string formats a counter. *)
Definition decimal (n : nat) : string :=
  NilEmpty.string_of_uint (Nat.to_uint n).

End Str.

(** ** Paths: [pathlib.PurePosixPath] *)

(** A path is its root flag and its components, as [pathlib] keeps them
    after parsing.  [Path('.')] has no component. *)
Record Path := mkPath { root : bool; parts : list string }.

Global Instance Path_eq_dec : EqDecision Path.
Proof. solve_decision. Defined.

Global Instance Path_countable : Countable Path.
Proof.
  refine (inj_countable' (λ p, (root p, parts p))
                         (λ t, mkPath t.1 t.2) _).
  by intros [??].
Defined.

Definition sep : ascii := "/"%char.
Definition dot : ascii := "."%char.

(** [Path(s)]: split on the separator, drop empty and ["."] components. *)
Definition keep_part (c : string) : bool :=
  negb (bool_decide (c = "")) && negb (bool_decide (c = ".")).

Definition parse_path (s : string) : Path :=
  mkPath (Str.starts_with sep s) (filter (λ c, keep_part c = true) (Str.split sep s)).

(** [p / s] for a string [s]: an absolute right operand replaces [p]. *)
Definition truediv (p : Path) (s : string) : Path :=
  let q := parse_path s in
  if root q then q else mkPath (root p) (parts p ++ parts q).

(** [p.name]: the last component, [""] when there is none. *)
Definition name (p : Path) : string := List.last (parts p) "".

(** [p.suffix] and [p.stem]: split the name at its last dot when that dot
    is neither the first nor the last character. *)
Definition suffix_index (nm : string) : option nat :=
  match Str.rfind dot nm with
  | Some i => if (0 <? i) && (i <? String.length nm - 1) then Some i else None
  | None => None
  end.

Definition suffix (p : Path) : string :=
  match suffix_index (name p) with
  | Some i => Str.drop i (name p)
  | None => ""
  end.

Definition stem (p : Path) : string :=
  match suffix_index (name p) with
  | Some i => Str.take i (name p)
  | None => name p
  end.

(** Python exceptions.  Only instances of [Exception] are modelled: these
    are what [except Exception] catches. *)
Inductive exn_class :=
  | FileNotFoundError | PermissionError | IsADirectoryError | OSError
  | JSONDecodeError | UnicodeDecodeError
  | KeyError | TypeError | ValueError | AttributeError
  | OtherException (cls : string).

Global Instance exn_class_eq_dec : EqDecision exn_class.
Proof. solve_decision. Defined.

Record exn := mkExn { exn_cls : exn_class; exn_msg : string }.

Global Instance exn_eq_dec : EqDecision exn.
Proof. solve_decision. Defined.

Inductive result (A : Type) :=
  | Ok (a : A)
  | Raise (e : exn).
Global Arguments Ok {A} a.
Global Arguments Raise {A} e.

Definition is_Ok {A} (r : result A) : bool :=
  match r with Ok _ => true | Raise _ => false end.

(** [p.with_name(n)]: refuses a path without a name and an invalid [n]. *)
Definition valid_name (n : string) : bool :=
  negb (bool_decide (n = "")) && negb (Str.contains sep n)
  && negb (bool_decide (n = ".")).

Definition with_name (p : Path) (n : string) : result Path :=
  if bool_decide (name p = "") then
    Raise (mkExn ValueError "path has an empty name")
  else if valid_name n then
    Ok (mkPath (root p) (removelast (parts p) ++ [n]))
  else Raise (mkExn ValueError "Invalid name").

(** [p.with_suffix(sfx)]. *)
Definition valid_suffix (sfx : string) : bool :=
  negb (Str.contains sep sfx)
  && (bool_decide (sfx = "") || Str.starts_with dot sfx)
  && negb (bool_decide (sfx = ".")).

Definition with_suffix (p : Path) (sfx : string) : result Path :=
  if valid_suffix sfx then
    if bool_decide (name p = "") then
      Raise (mkExn ValueError "path has an empty name")
    else Ok (mkPath (root p) (removelast (parts p) ++ [stem p +:+ sfx]))
  else Raise (mkExn ValueError "Invalid suffix").

(** A path value as [pathlib] builds it: no component is empty, is ["."]
    or contains the separator. *)
Definition wf_part (c : string) : bool :=
  keep_part c && negb (Str.contains sep c).
Definition wf_path (p : Path) : bool := forallb wf_part (parts p).

(** ** Python values, as [json.load] builds them *)

#[warnings="-register-all"]
Inductive pyval :=
  | PNone
  | PBool (b : bool)
  | PInt (z : Z)
  | PFloat (f : float)
  | PStr (s : string)
  | PList (l : list pyval)
  | PDict (d : list (string * pyval)).

(** A [dict] keeps its keys in insertion order; keys are unique. *)
Fixpoint dict_lookup (d : list (string * pyval)) (k : string) : option pyval :=
  match d with
  | [] => None
  | (k', v) :: d' => if decide (k' = k) then Some v else dict_lookup d' k
  end.


(** [v[k]] for a string key. *)
Definition getitem (v : pyval) (k : string) : result pyval :=
  match v with
  | PDict d =>
      match dict_lookup d k with
      | Some x => Ok x
      | None => Raise (mkExn KeyError k)
      end
  | PList _ => Raise (mkExn TypeError "list indices must be integers or slices, not str")
  | PStr _ => Raise (mkExn TypeError "string indices must be integers, not str")
  | _ => Raise (mkExn TypeError "object is not subscriptable")
  end.

(** [v.get(k)]: only a [dict] has the method. *)
Definition dict_get (v : pyval) (k : string) : result pyval :=
  match v with
  | PDict d => Ok (default PNone (dict_lookup d k))
  | _ => Raise (mkExn AttributeError "object has no attribute 'get'")
  end.

(** [bool(v)], as [if v:] tests it. *)
Definition truthy (v : pyval) : bool :=
  match v with
  | PNone => false
  | PBool b => b
  | PInt z => negb (z =? 0)%Z
  | PFloat f => negb (PrimFloat.eqb f PrimFloat.zero)
  | PStr s => negb (bool_decide (s = ""))
  | PList l => negb (bool_decide (length l = 0))
  | PDict d => negb (bool_decide (length d = 0))
  end.

(** [for x in v]: a list yields its items, a dict its keys, a string its
    characters; nothing else is iterable. *)
Fixpoint chars (s : string) : list pyval :=
  match s with
  | EmptyString => []
  | String a s' => PStr (String a EmptyString) :: chars s'
  end.

Definition py_iter (v : pyval) : result (list pyval) :=
  match v with
  | PList l => Ok l
  | PDict d => Ok (map (λ kv, PStr kv.1) d)
  | PStr s => Ok (chars s)
  | _ => Raise (mkExn TypeError "object is not iterable")
  end.

(** [Path(v)]: refuses anything that is not a string. *)
Definition Path_of (v : pyval) : result Path :=
  match v with
  | PStr s => Ok (parse_path s)
  | _ => Raise (mkExn TypeError "expected str, bytes or os.PathLike object")
  end.

(** ** The file system *)

Inductive file (Content : Type) :=
  | Dir
  | File (c : Content).
Global Arguments Dir {Content}.
Global Arguments File {Content} c.

(** The existing paths and what they hold. *)
Abbreviation FS Content := (gmap Path (file Content)).

(** [p.exists()]. *)
Definition path_exists {Content} (fs : FS Content) (p : Path) : bool :=
  bool_decide (is_Some (fs !! p)).

(** [dir.glob('*' + lit)]: the entries of [dir] whose name ends in [lit]. *)
Definition parent (p : Path) : Path := mkPath (root p) (removelast (parts p)).

Fixpoint ends_with_str (lit : string) (s : string) : bool :=
  bool_decide (s = lit) ||
  match s with
  | EmptyString => false
  | String _ s' => ends_with_str lit s'
  end.

Definition in_dir (dir p : Path) : bool :=
  negb (bool_decide (parts p = [])) && bool_decide (parent p = dir).

Definition glob_star {Content} (dir : Path) (lit : string) (fs : FS Content)
    : list Path :=
  filter (λ p, in_dir dir p && ends_with_str lit (name p) = true)
         (map_to_list fs).*1.

(** ** [get_unique_filename] *)

(** The candidate the loop builds for a counter:
    [path.with_name(f"{path.stem}_{counter}{path.suffix}")]. *)
Definition candidate (path : Path) (counter : nat) : result Path :=
  with_name path (stem path +:+ "_" +:+ Str.decimal counter +:+ suffix path).

(** The [while] loop; [None] is running out of fuel, [Some (Raise _)] is
    [with_name] refusing. *)
Fixpoint get_unique_filename_loop {Content} (fuel : nat) (fs : FS Content)
    (path unique_path : Path) (counter : nat) : option (result Path) :=
  match fuel with
  | 0 => None
  | S fuel' =>
      if path_exists fs unique_path then
        match candidate path counter with
        | Ok unique_path' =>
            get_unique_filename_loop fuel' fs path unique_path' (counter + 1)
        | Raise e => Some (Raise e)
        end
      else Some (Ok unique_path)
  end.

(** The name the loop builds for a counter, the path carrying it, and the
    path probed after [i] collisions when the loop starts from [up] with
    the counter at [c]. *)
Definition numbered (p : Path) (k : nat) : string :=
  stem p +:+ "_" +:+ Str.decimal k +:+ suffix p.

Definition numbered_path (p : Path) (k : nat) : Path :=
  mkPath (root p) (removelast (parts p) ++ [numbered p k]).

Definition probe (p up : Path) (c i : nat) : Path :=
  match i with
  | 0 => up
  | S i' => numbered_path p (c + i')
  end.

(** Every probe that finds a file finds a different one, so one more probe
    than there are files is enough ([get_unique_filename_fuel_enough]). *)
Definition get_unique_filename_fuel {Content} (fs : FS Content) : nat :=
  S (size fs).

Definition get_unique_filename_on {Content} (fs : FS Content) (path : Path)
    : option (result Path) :=
  get_unique_filename_loop (get_unique_filename_fuel fs) fs path path 1.

(** ** What the script takes from its libraries *)

(** Embedded capture metadata, as [piexif.load] returns it: one map from tag
    number to value per directory. *)
Record exif_dict := mkExif {
  ifd_0th : gmap Z pyval;
  ifd_Exif : gmap Z pyval;
  ifd_GPS : gmap Z pyval;
  ifd_Interop : gmap Z pyval;
  ifd_1st : gmap Z pyval;
  thumbnail : option string
}.

(** [piexif.ExifIFD.DateTimeOriginal], [piexif.GPSIFD.GPSLatitude] and
    [piexif.GPSIFD.GPSLongitude]. *)
Definition DateTimeOriginal : Z := 36867.
Definition GPSLatitude : Z := 2.
Definition GPSLongitude : Z := 4.

(** [Image.Resampling]. *)
Inductive resample := NEAREST | BILINEAR | BICUBIC | BOX | HAMMING | LANCZOS.

(** The operations of the standard library, Pillow, piexif and iptcinfo3
    that the script calls.  Each may raise; the ones that write return the
    file system they leave behind, also when they raise. *)
Class Externals := {
  Content : Type;
  Handle : Type;
  Image : Type;
  ExifBytes : Type;
  IptcInfo : Type;
  datetime : Type;
  (* builtins, json, datetime *)
  builtin_open : Path → FS Content → result Handle;
  json_load : Handle → result pyval;
  strptime : string → string → result datetime;
  strftime : datetime → string → string;
  (* os, shutil *)
  unlink : Path → FS Content → FS Content * result unit;
  shutil_move : Path → Path → FS Content → FS Content * result unit;
  shutil_copy2 : Path → Path → FS Content → FS Content * result unit;
  (* PIL.Image, PIL.ImageDraw *)
  Image_open : Path → FS Content → result Image;
  width : Image → Z;
  height : Image → Z;
  Image_convert : Image → string → result Image;
  Image_save : Image → Path → string → option Z → FS Content
               → FS Content * result unit;
  Image_resize : Image → Z * Z → resample → result Image;
  Image_new : string → Z * Z → Z → result Image;
  rounded_rectangle : Image → list Z → Z → Z → result Image;
  Image_putalpha : Image → Image → result Image;
  Image_paste : Image → Image → Z * Z → Image → result Image;
  (* piexif *)
  piexif_load : Path → FS Content → result exif_dict;
  piexif_dump : exif_dict → result ExifBytes;
  piexif_insert : ExifBytes → Path → FS Content → FS Content * result unit;
  (* iptcinfo3 *)
  IPTCInfo : Path → bool → FS Content → result IptcInfo;
  IPTCInfo_setitem : IptcInfo → string → pyval → result IptcInfo;
  IPTCInfo_save : IptcInfo → FS Content → FS Content * result unit
}.

(** [img.size]. *)
Definition size_of `{Externals} (img : Image) : Z * Z := (width img, height img).

Section Script.
Context `{E : Externals}.

(** ** What a run can be observed to do *)

Inductive level := INFO | ERROR.

(** The log lines of the script, before formatting. *)
Inductive message :=
  | Removed_backup_file (p : Path)
  | Error_removing (p : Path) (e : exn)
  | Converted_to_JPEG (p : Path)
  | Error_converting (p : Path) (e : exn)
  | Failed_to_update_EXIF (p : Path) (e : exn)
  | Failed_to_update_IPTC (p : Path) (e : exn)
  | JSON_file_not_found
  | Error_processing_entry (entry : pyval) (e : exn).

(** A log line, or a library call with its arguments and what it gave. *)
Inductive event :=
  | Log (lvl : level) (m : message)
  | COpen (p : Path) (r : result Handle)
  | CJsonLoad (h : Handle) (r : result pyval)
  | CUnlink (p : Path) (r : result unit)
  | CMove (src dst : Path) (r : result unit)
  | CCopy2 (src dst : Path) (r : result unit)
  | CImageOpen (p : Path) (r : result Image)
  | CConvert (img : Image) (mode : string) (r : result Image)
  | CSave (img : Image) (p : Path) (fmt : string) (quality : option Z)
          (r : result unit)
  | CResize (img : Image) (sz : Z * Z) (flt : resample) (r : result Image)
  | CNew (mode : string) (sz : Z * Z) (color : Z) (r : result Image)
  | CRoundedRectangle (img : Image) (xy : list Z) (radius fill : Z)
                      (r : result Image)
  | CPutalpha (img mask : Image) (r : result Image)
  | CPaste (base im : Image) (box : Z * Z) (mask : Image) (r : result Image)
  | CPiexifLoad (p : Path) (r : result exif_dict)
  | CPiexifDump (d : exif_dict) (r : result ExifBytes)
  | CPiexifInsert (b : ExifBytes) (p : Path) (r : result unit)
  | CIPTCInfo (p : Path) (force : bool) (r : result IptcInfo)
  | CIPTCSetitem (i : IptcInfo) (key : string) (v : pyval) (r : result IptcInfo)
  | CIPTCSave (i : IptcInfo) (r : result unit).

(** ** Computations: file system in; result, file system and events out *)

Record outcome (A : Type) := mkOut {
  res : result A;
  fs_of : FS Content;
  trace : list event
}.
Global Arguments mkOut {A} _ _ _.
Global Arguments res {A} _.
Global Arguments fs_of {A} _.
Global Arguments trace {A} _.

Definition M (A : Type) : Type := FS Content → outcome A.

Definition ret {A} (a : A) : M A := λ fs, mkOut (Ok a) fs [].

(** What came before an outcome, put in front of its trace. *)
Definition prepend {A} (tr : list event) (o : outcome A) : outcome A :=
  mkOut (res o) (fs_of o) (tr ++ trace o).

Definition bind {A B} (c : M A) (k : A → M B) : M B := λ fs,
  let o := c fs in
  match res o with
  | Ok a => prepend (trace o) (k a (fs_of o))
  | Raise e => mkOut (Raise e) (fs_of o) (trace o)
  end.

(** [try: c / except Exception as e: h e]. *)
Definition try_except {A} (c : M A) (h : exn → M A) : M A := λ fs,
  let o := c fs in
  match res o with
  | Ok a => o
  | Raise e => prepend (trace o) (h e (fs_of o))
  end.

(** [try: c / except cls: h]: other classes propagate. *)
Definition try_except_cls {A} (cls : exn_class) (c : M A) (h : M A) : M A :=
  λ fs,
  let o := c fs in
  match res o with
  | Ok a => o
  | Raise e =>
      if decide (exn_cls e = cls) then prepend (trace o) (h (fs_of o)) else o
  end.

(** A value or an exception of pure Python code. *)
Definition lift {A} (r : result A) : M A := λ fs, mkOut r fs [].

Definition get_fs : M (FS Content) := λ fs, mkOut (Ok fs) fs [].

(** Library calls: reading, writing, and without the file system. *)
Definition call_ro {A} (op : FS Content → result A) (ev : result A → event)
    : M A := λ fs, mkOut (op fs) fs [ev (op fs)].

Definition call_rw {A} (op : FS Content → FS Content * result A)
    (ev : result A → event) : M A := λ fs,
  mkOut (op fs).2 (op fs).1 [ev (op fs).2].

Definition call_pure {A} (r : result A) (ev : result A → event) : M A :=
  λ fs, mkOut r fs [ev r].

Definition logger_info (m : message) : M unit := λ fs, mkOut (Ok tt) fs [Log INFO m].
Definition logger_error (m : message) : M unit := λ fs, mkOut (Ok tt) fs [Log ERROR m].

(** [for x in l: body x]. *)
Fixpoint for_each {A} (l : list A) (body : A → M unit) : M unit :=
  match l with
  | [] => ret tt
  | x :: l' => bind (body x) (λ _, for_each l' body)
  end.

End Script.

Notation "'let*' x ':=' c 'in' k" := (bind c (λ x, k))
  (at level 10, x pattern, c at level 100, k at level 200,
   format "'[v' 'let*'  x  ':='  c  'in'  '/' k ']'").
Notation "c >> k" := (bind c (λ _, k))
  (at level 100, k at level 200, right associativity,
   format "'[v' c  >>  '/' k ']'").

(** ** The script *)

Section Program.
Context `{E : Externals}.

(** [OUTPUT_SETTINGS]. *)
Definition DEFAULT_OUTPUT_FORMAT : string := "JPEG".
Definition JPEG_QUALITY : Z := 80.

(** Paths. *)
Definition PHOTO_FOLDER : Path := parse_path "Photos/post/".
Definition BEREAL_FOLDER : Path := parse_path "Photos/bereal".
Definition OUTPUT_FOLDER : Path := parse_path "Photos/post/__processed".
Definition COMBINED_FOLDER : Path := parse_path "Photos/post/__combined".
Definition POSTS_JSON : Path := parse_path "posts.json".

(** *** Utilities *)

(** [get_unique_filename(path)], reading the file system it runs in.  The
    loop always ends within its fuel ([get_unique_filename_fuel_enough]), so
    the fallback is never taken. *)
Definition get_unique_filename (path : Path) : M Path := λ fs,
  mkOut (default (Raise (mkExn (OtherException "out of fuel") ""))
                 (get_unique_filename_on fs path)) fs [].

(** [remove_backup_files(directory)]. *)
Definition remove_backup_file (backup_file : Path) : M unit :=
  try_except
    (call_rw (unlink backup_file) (CUnlink backup_file) >>
     logger_info (Removed_backup_file backup_file))
    (λ e, logger_error (Error_removing backup_file e)).

Definition remove_backup_files (directory : Path) : M unit :=
  let* fs := get_fs in
  for_each (glob_star directory "~" fs) remove_backup_file.

(** *** Image operations *)

(** [convert_webp_to_jpg(image_path)]; [None] is Python's [None]. *)
Definition convert_webp_to_jpg_body (image_path jpg_path : Path)
    : M (option Path) :=
  let* img := call_ro (Image_open image_path) (CImageOpen image_path) in
  let* rgb := call_pure (Image_convert img "RGB") (CConvert img "RGB") in
  call_rw (Image_save rgb jpg_path DEFAULT_OUTPUT_FORMAT (Some JPEG_QUALITY))
          (CSave rgb jpg_path DEFAULT_OUTPUT_FORMAT (Some JPEG_QUALITY)) >>
  logger_info (Converted_to_JPEG image_path) >>
  ret (Some jpg_path).

Definition convert_webp_to_jpg (image_path : Path) : M (option Path) :=
  let* jpg_path := lift (with_suffix image_path ".jpg") in
  try_except
    (convert_webp_to_jpg_body image_path jpg_path)
    (λ e, logger_error (Error_converting image_path e) >> ret None).

(** [combine_images(primary_path, secondary_path, output_path)].  The
    in-place updates of [mask], [secondary_img] and [primary_img] become
    new values of the same names. *)
Definition combine_images (primary_path secondary_path output_path : Path)
    : M unit :=
  let* primary_img := call_ro (Image_open primary_path) (CImageOpen primary_path) in
  let* opened := call_ro (Image_open secondary_path) (CImageOpen secondary_path) in
  let third := ((width primary_img / 3)%Z, (height primary_img / 3)%Z) in
  let* secondary_img :=
    call_pure (Image_resize opened third LANCZOS) (CResize opened third LANCZOS) in
  let* mask :=
    call_pure (Image_new "L" (size_of secondary_img) 0)
              (CNew "L" (size_of secondary_img) 0) in
  let xy := [0; 0; width secondary_img; height secondary_img]%Z in
  let* mask :=
    call_pure (rounded_rectangle mask xy 30 255)
              (CRoundedRectangle mask xy 30 255) in
  let* secondary_img :=
    call_pure (Image_putalpha secondary_img mask) (CPutalpha secondary_img mask) in
  let* primary_img :=
    call_pure (Image_paste primary_img secondary_img (50, 50)%Z secondary_img)
              (CPaste primary_img secondary_img (50, 50)%Z secondary_img) in
  call_rw (Image_save primary_img output_path DEFAULT_OUTPUT_FORMAT None)
          (CSave primary_img output_path DEFAULT_OUTPUT_FORMAT None).

(** *** Metadata management *)

(** [exif["Exif"][tag] = v] and [exif["GPS"] = gps]. *)
Definition set_Exif (exif : exif_dict) (tag : Z) (v : pyval) : exif_dict :=
  mkExif (ifd_0th exif) (<[tag := v]> (ifd_Exif exif)) (ifd_GPS exif)
         (ifd_Interop exif) (ifd_1st exif) (thumbnail exif).

Definition set_GPS (exif : exif_dict) (gps : gmap Z pyval) : exif_dict :=
  mkExif (ifd_0th exif) (ifd_Exif exif) gps
         (ifd_Interop exif) (ifd_1st exif) (thumbnail exif).

(** The first [try] body of [update_metadata]. *)
Definition update_exif (image_path : Path) (datetime_taken : datetime)
    (location : pyval) : M unit :=
  let* exif := call_ro (piexif_load image_path) (CPiexifLoad image_path) in
  let exif :=
    set_Exif exif DateTimeOriginal
             (PStr (strftime datetime_taken "%Y:%m:%d %H:%M:%S")) in
  let* exif :=
    if truthy location then
      let* latitude := lift (getitem location "latitude") in
      let* longitude := lift (getitem location "longitude") in
      ret (set_GPS exif (<[GPSLongitude := longitude]>
                           (<[GPSLatitude := latitude]> ∅)))
    else ret exif in
  let* bytes := call_pure (piexif_dump exif) (CPiexifDump exif) in
  call_rw (piexif_insert bytes image_path) (CPiexifInsert bytes image_path).

(** The second [try] body of [update_metadata]. *)
Definition update_iptc (image_path : Path) (caption : pyval) : M unit :=
  let* iptc := call_ro (IPTCInfo image_path true) (CIPTCInfo image_path true) in
  let* iptc :=
    if truthy caption then
      call_pure (IPTCInfo_setitem iptc "caption/abstract" caption)
                (CIPTCSetitem iptc "caption/abstract" caption)
    else ret iptc in
  call_rw (IPTCInfo_save iptc) (CIPTCSave iptc).

(** [update_metadata(image_path, datetime_taken, caption=None, location=None)]. *)
Definition update_metadata (image_path : Path) (datetime_taken : datetime)
    (caption : pyval) (location : pyval) : M unit :=
  try_except (update_exif image_path datetime_taken location)
             (λ e, logger_error (Failed_to_update_EXIF image_path e)) >>
  try_except (update_iptc image_path caption)
             (λ e, logger_error (Failed_to_update_IPTC image_path e)).

(** *** Main processing *)

(** The first three statements of the per-entry [try] body. *)
Definition source_path (entry : pyval) (which : string) : result Path :=
  match getitem entry which with
  | Ok img =>
      match getitem img "path" with
      | Ok s =>
          match Path_of s with
          | Ok p => Ok (truediv PHOTO_FOLDER (name p))
          | Raise e => Raise e
          end
      | Raise e => Raise e
      end
  | Raise e => Raise e
  end.

Definition parse_takenAt (entry : pyval) : result datetime :=
  match getitem entry "takenAt" with
  | Ok (PStr s) => strptime s "%Y-%m-%dT%H:%M:%S.%fZ"
  | Ok _ => Raise (mkExn TypeError "strptime() argument 1 must be str")
  | Raise e => Raise e
  end.

(** The body of [for image_path in [primary, secondary]]. *)
Definition process_image (entry : pyval) (taken_at : datetime)
    (image_path : Path) : M unit :=
  let* fs := get_fs in
  if negb (path_exists fs image_path) then ret tt
  else
    let* new_path :=
      get_unique_filename (truediv OUTPUT_FOLDER (name image_path)) in
    let* new_path :=
      if bool_decide (suffix image_path = ".webp") then
        let* converted := convert_webp_to_jpg image_path in
        match converted with
        | Some converted =>
            let* jpg := lift (with_suffix new_path ".jpg") in
            let* new_path := get_unique_filename jpg in
            call_rw (shutil_move converted new_path) (CMove converted new_path) >>
            ret new_path
        | None => ret new_path
        end
      else
        call_rw (shutil_copy2 image_path new_path) (CCopy2 image_path new_path) >>
        ret new_path in
    let* caption := lift (dict_get entry "caption") in
    update_metadata new_path taken_at caption PNone.

(** The body of [for entry in data], inside its [try]. *)
Definition process_entry (entry : pyval) : M unit :=
  let* primary := lift (source_path entry "primary") in
  let* secondary := lift (source_path entry "secondary") in
  let* taken_at := lift (parse_takenAt entry) in
  for_each [primary; secondary] (process_image entry taken_at) >>
  let* combined_path :=
    get_unique_filename
      (truediv COMBINED_FOLDER
               (strftime taken_at "%Y%m%d_%H%M%S" +:+ "_combined.jpg")) in
  combine_images primary secondary combined_path >>
  let* caption := lift (dict_get entry "caption") in
  update_metadata combined_path taken_at caption PNone.

(** One iteration of [for entry in data]. *)
Definition process_entry_guarded (entry : pyval) : M unit :=
  try_except (process_entry entry)
             (λ e, logger_error (Error_processing_entry entry e)).

(** [with open("posts.json", encoding="utf8") as f: data = json.load(f)]. *)
Definition load_manifest : M pyval :=
  let* f := call_ro (builtin_open POSTS_JSON) (COpen POSTS_JSON) in
  call_pure (json_load f) (CJsonLoad f).

(** [process_files()].  [None] from the first step is the early [return]. *)
Definition process_files : M unit :=
  let* loaded :=
    try_except_cls FileNotFoundError
      (let* data := load_manifest in ret (Some data))
      (logger_error JSON_file_not_found >> ret None) in
  match loaded with
  | None => ret tt
  | Some data =>
      let* entries := lift (py_iter data) in
      for_each entries process_entry_guarded >>
      remove_backup_files OUTPUT_FOLDER >>
      remove_backup_files COMBINED_FOLDER
  end.

End Program.

Global Arguments get_unique_filename : simpl never.
Global Arguments remove_backup_file : simpl never.
Global Arguments remove_backup_files : simpl never.
Global Arguments convert_webp_to_jpg_body : simpl never.
Global Arguments convert_webp_to_jpg : simpl never.
Global Arguments combine_images : simpl never.
Global Arguments update_exif : simpl never.
Global Arguments update_iptc : simpl never.
Global Arguments update_metadata : simpl never.
Global Arguments process_image : simpl never.
Global Arguments process_entry : simpl never.
Global Arguments process_entry_guarded : simpl never.
Global Arguments load_manifest : simpl never.
Global Arguments process_files : simpl never.

(** ** Reading a run *)

Section Reading.
Context `{E : Externals}.

(** The error line a [try] leaves when its body raised. *)
Definition failure_log (m : exn → message) {A} (r : result A) : list event :=
  match r with
  | Ok _ => []
  | Raise e => [Log ERROR (m e)]
  end.

(** The files a trace tried to delete. *)
Definition unlinked (ev : event) : option Path :=
  match ev with
  | CUnlink p _ => Some p
  | _ => None
  end.

(** The log lines of a trace. *)
Definition log_line (ev : event) : option (level * message) :=
  match ev with
  | Log lvl m => Some (lvl, m)
  | _ => None
  end.

(** The library calls of a trace, as opposed to its log lines. *)
Definition is_call (ev : event) : bool :=
  match ev with
  | Log _ _ => false
  | _ => true
  end.

(** The error lines of a trace. *)
Definition error_line (ev : event) : option message :=
  match ev with
  | Log ERROR m => Some m
  | _ => None
  end.

(** The batch, entry by entry: every entry of the manifest is processed
    from the file system its predecessors left, and an entry that raises
    leaves one error line naming it. *)
Inductive batch_run : list pyval → FS Content → FS Content → list event → Prop :=
  | batch_done fs : batch_run [] fs fs []
  | batch_entry_ok entry entries fs fs' tr :
      res (process_entry entry fs) = Ok tt →
      batch_run entries (fs_of (process_entry entry fs)) fs' tr →
      batch_run (entry :: entries) fs fs' (trace (process_entry entry fs) ++ tr)
  | batch_entry_failed entry entries fs e fs' tr :
      res (process_entry entry fs) = Raise e →
      batch_run entries (fs_of (process_entry entry fs)) fs' tr →
      batch_run (entry :: entries) fs fs'
        (trace (process_entry entry fs)
           ++ Log ERROR (Error_processing_entry entry e) :: tr).

(** The two metadata containers of a file, and the calls that open them. *)
Inductive container := Capture | Caption.

Definition container_opened (ev : event) : option (container * Path) :=
  match ev with
  | CPiexifLoad p _ => Some (Capture, p)
  | CIPTCInfo p _ _ => Some (Caption, p)
  | _ => None
  end.



(** The files a trace moved, as (source, destination). *)
Definition moved (ev : event) : option (Path * Path) :=
  match ev with
  | CMove src dst _ => Some (src, dst)
  | _ => None
  end.



(** Predicates on traces that hold of nothing and of concatenations. *)
Definition closed (P : list event → Prop) : Prop :=
  P [] ∧ ∀ t1 t2, P t1 → P t2 → P (t1 ++ t2).

(** A computation all of whose traces satisfy [P]. *)
Definition traces (P : list event → Prop) {A} (c : M A) : Prop :=
  ∀ fs, P (trace (c fs)).

(** *** What the claims take from the libraries *)



(** What [piexif.insert] wrote is read back by [piexif.load] with the
    same capture time and the same GPS directory. *)
Definition exif_read_back : Prop :=
  ∀ d b p fs fs',
    piexif_dump d = Ok b → piexif_insert b p fs = (fs', Ok tt) →
    ∃ d', piexif_load p fs' = Ok d'
          ∧ ifd_Exif d' !! DateTimeOriginal = ifd_Exif d !! DateTimeOriginal
          ∧ ifd_GPS d' = ifd_GPS d.

(** The caption write leaves the capture container of its file alone. *)
Definition caption_keeps_capture : Prop :=
  ∀ p caption fs,
    piexif_load p (fs_of (update_iptc p caption fs)) = piexif_load p fs.

(** Pillow's operations keep sizes: a resized or new image has the size
    asked for; drawing, [putalpha] and [paste] keep the size of the image
    they update; a saved image is read back with its size. *)
Record pillow_sizes : Prop := {
  resize_size : ∀ img sz flt r, Image_resize img sz flt = Ok r → size_of r = sz;
  new_size : ∀ mode sz color r, Image_new mode sz color = Ok r → size_of r = sz;
  rounded_rectangle_size :
    ∀ img xy radius fill r,
      rounded_rectangle img xy radius fill = Ok r → size_of r = size_of img;
  putalpha_size :
    ∀ img mask r, Image_putalpha img mask = Ok r → size_of r = size_of img;
  paste_size :
    ∀ base im box mask r,
      Image_paste base im box mask = Ok r → size_of r = size_of base;
  save_size :
    ∀ img p fmt quality fs fs',
      Image_save img p fmt quality fs = (fs', Ok tt) →
      ∃ img', Image_open p fs' = Ok img' ∧ size_of img' = size_of img
}.

(** The composite as the specification words it: the secondary resized to
    a third of the primary with the Lanczos filter, a rounded-rectangle
    mask of radius 30 of that size, the mask as alpha channel, and the
    result pasted at (50, 50) through its own alpha. *)
Record composition := mkComposition {
  resized : Image;
  blank : Image;
  mask : Image;
  masked : Image;
  pasted : Image
}.

Definition composes (primary secondary : Image) (c : composition) : Prop :=
  Image_resize secondary ((width primary / 3)%Z, (height primary / 3)%Z) LANCZOS
  = Ok (resized c)
  ∧ Image_new "L" (size_of (resized c)) 0 = Ok (blank c)
  ∧ rounded_rectangle (blank c)
      [0; 0; width (resized c); height (resized c)]%Z 30 255 = Ok (mask c)
  ∧ Image_putalpha (resized c) (mask c) = Ok (masked c)
  ∧ Image_paste primary (masked c) (50, 50)%Z (masked c) = Ok (pasted c).

End Reading.

(** ** The log formatter and the file counter *)

(** [STYLING]: ANSI escape sequences. *)
Definition ESC : ascii := ascii_of_nat 27.
Definition STYLING_GREEN : string := String ESC "[92m".
Definition STYLING_RED : string := String ESC "[91m".
Definition STYLING_BLUE : string := String ESC "[94m".
Definition STYLING_BOLD : string := String ESC "[1m".
Definition STYLING_RESET : string := String ESC "[0m".

(** [logging.INFO] and [logging.ERROR]. *)
Definition logging_INFO : Z := 20.
Definition logging_ERROR : Z := 40.

(** What [ColorFormatter.format] reads of a [LogRecord]. *)
Record LogRecord := mkRecord { levelno : Z; msg : string }.

(** [s.startswith(lit)] and [lit in s]. *)
Fixpoint str_startswith (lit s : string) : bool :=
  match lit, s with
  | EmptyString, _ => true
  | String a lit', String b s' => bool_decide (a = b) && str_startswith lit' s'
  | String _ _, EmptyString => false
  end.

Fixpoint str_in (lit s : string) : bool :=
  str_startswith lit s
  || match s with
     | EmptyString => false
     | String _ s' => str_in lit s'
     end.

(** [{logging.INFO: GREEN, logging.ERROR: RED}.get(levelno, "")]. *)
Definition level_color (n : Z) : string :=
  if (n =? logging_INFO)%Z then STYLING_GREEN
  else if (n =? logging_ERROR)%Z then STYLING_RED
  else "".

(** [ColorFormatter.format(record)]; [super_format] is
    [logging.Formatter.format] with the handler's format string. *)
Definition ColorFormatter_format (super_format : LogRecord → string)
    (record : LogRecord) : string :=
  let message := super_format record in
  let color := level_color (levelno record) in
  let color :=
    if str_in "Finished processing" (msg record)
    then STYLING_BLUE +:+ STYLING_BOLD else color in
  color +:+ message +:+ STYLING_RESET.

(** [count_files(folder, ext)] for a pattern [ext = '*' + lit] with a
    literal [lit], as the default ['*.webp'] is. *)
Definition count_files {Content} (folder : Path) (lit : string)
    (fs : FS Content) : nat :=
  length (glob_star folder lit fs).

(** ** More ways to read a run *)

Section Observers.
Context `{E : Externals}.

(** The files a trace saved an image to. *)
Definition saved (ev : event) : option Path :=
  match ev with
  | CSave _ p _ _ _ => Some p
  | _ => None
  end.

(** The capture containers a trace handed to [piexif.dump]. *)
Definition dumped (ev : event) : option exif_dict :=
  match ev with
  | CPiexifDump d _ => Some d
  | _ => None
  end.

(** The file a copy or a move writes, or a metadata call works on. *)
Definition destination (ev : event) : option Path :=
  match ev with
  | CCopy2 _ dst _ | CMove _ dst _ => Some dst
  | CPiexifLoad p _ | CPiexifInsert _ p _ | CIPTCInfo p _ _ => Some p
  | _ => None
  end.

(** The exception that stops an entry before its first image: the first
    of its two paths and its timestamp that cannot be read. *)
Definition rejection (entry : pyval) : option exn :=
  match source_path entry "primary" with
  | Raise e => Some e
  | Ok _ =>
      match source_path entry "secondary" with
      | Raise e => Some e
      | Ok _ =>
          match parse_takenAt entry with
          | Raise e => Some e
          | Ok _ => None
          end
      end
  end.

(** An [unlink] that succeeds removes its file and nothing else; one that
    raises leaves the file system as it was. *)
Definition unlink_lawful : Prop :=
  ∀ p fs,
    (unlink p fs).1 = match (unlink p fs).2 with
                      | Ok _ => delete p fs
                      | Raise _ => fs
                      end.

(** An event that copies or moves only onto, and works on the metadata
    only of, files satisfying [dst]; saves images only to files satisfying
    [sv]; and deletes nothing. *)
Definition writes_within (dst sv : Path → Prop) (ev : event) : Prop :=
  (∀ q, destination ev = Some q → dst q)
  ∧ (∀ q, saved ev = Some q → sv q)
  ∧ unlinked ev = None.

(** An outcome all of whose events satisfy [φ] and whose value, if there
    is one, satisfies [Q]. *)
Definition yields {A} (φ : event → Prop) (Q : A → Prop) (o : outcome A) : Prop :=
  Forall φ (trace o) ∧ ∀ a, res o = Ok a → Q a.

End Observers.

(** ** A small model of the libraries, to run the script on examples *)

Module Toy.

(** A file: whether it may be read, what it parses to as JSON, the size of
    the image it decodes to, and its two metadata containers. *)
Record toy_file := mkFile {
  readable : bool;
  json : option pyval;
  pixels : option (Z * Z);
  exif : exif_dict;
  caption : option pyval
}.

Definition no_exif : exif_dict := mkExif ∅ ∅ ∅ ∅ ∅ None.

Definition image_file (sz : Z * Z) : toy_file :=
  mkFile true None (Some sz) no_exif None.

Definition json_file (v : pyval) : toy_file :=
  mkFile true (Some v) None no_exif None.

(** A timestamp keeps the fields of its text. *)
Record toy_datetime := mkDatetime {
  year : string; month : string; day : string;
  hour : string; minute : string; second : string
}.

Definition FileNotFound : exn := mkExn FileNotFoundError "No such file or directory".
Definition IsADirectory : exn := mkExn IsADirectoryError "Is a directory".
Definition PermissionDenied : exn := mkExn PermissionError "Permission denied".

(** An open file is what its text parses to, if it is JSON. *)
Definition toy_open (p : Path) (fs : FS toy_file) : result (option pyval) :=
  match fs !! p with
  | None => Raise FileNotFound
  | Some Dir => Raise IsADirectory
  | Some (File c) => if readable c then Ok (json c) else Raise PermissionDenied
  end.

Definition toy_json_load (h : option pyval) : result pyval :=
  match h with
  | Some v => Ok v
  | None => Raise (mkExn JSONDecodeError "Expecting value")
  end.

(** Accepts [YYYY-MM-DDTHH:MM:SS.f...Z] by the position of its separators. *)
Definition toy_strptime (s fmt : string) : result toy_datetime :=
  if bool_decide (String.substring 4 1 s = "-")
     && bool_decide (String.substring 7 1 s = "-")
     && bool_decide (String.substring 10 1 s = "T")
     && bool_decide (String.substring 13 1 s = ":")
     && bool_decide (String.substring 16 1 s = ":")
     && bool_decide (String.substring 19 1 s = ".")
     && Str.ends_with "Z" s
  then Ok (mkDatetime (String.substring 0 4 s) (String.substring 5 2 s)
                      (String.substring 8 2 s) (String.substring 11 2 s)
                      (String.substring 14 2 s) (String.substring 17 2 s))
  else Raise (mkExn ValueError "time data does not match format").

Definition toy_strftime (t : toy_datetime) (fmt : string) : string :=
  if bool_decide (fmt = "%Y:%m:%d %H:%M:%S") then
    year t +:+ ":" +:+ month t +:+ ":" +:+ day t +:+ " " +:+
    hour t +:+ ":" +:+ minute t +:+ ":" +:+ second t
  else if bool_decide (fmt = "%Y%m%d_%H%M%S") then
    year t +:+ month t +:+ day t +:+ "_" +:+ hour t +:+ minute t +:+ second t
  else fmt.

Definition toy_unlink (p : Path) (fs : FS toy_file) : FS toy_file * result unit :=
  match fs !! p with
  | Some (File _) => (delete p fs, Ok tt)
  | Some Dir => (fs, Raise IsADirectory)
  | None => (fs, Raise FileNotFound)
  end.

Definition toy_move (src dst : Path) (fs : FS toy_file)
    : FS toy_file * result unit :=
  match fs !! src with
  | Some f => (<[dst := f]> (delete src fs), Ok tt)
  | None => (fs, Raise FileNotFound)
  end.

Definition toy_copy2 (src dst : Path) (fs : FS toy_file)
    : FS toy_file * result unit :=
  match fs !! src with
  | Some (File c) => (<[dst := File c]> fs, Ok tt)
  | Some Dir => (fs, Raise IsADirectory)
  | None => (fs, Raise FileNotFound)
  end.

(** An image is its size. *)
Definition toy_image_open (p : Path) (fs : FS toy_file) : result (Z * Z) :=
  match fs !! p with
  | Some (File c) =>
      match pixels c with
      | Some sz => Ok sz
      | None => Raise (mkExn (OtherException "UnidentifiedImageError")
                             "cannot identify image file")
      end
  | Some Dir => Raise IsADirectory
  | None => Raise FileNotFound
  end.

Definition toy_image_save (img : Z * Z) (p : Path) (fmt : string)
    (quality : option Z) (fs : FS toy_file) : FS toy_file * result unit :=
  (<[p := File (image_file img)]> fs, Ok tt).

Definition toy_resize (img sz : Z * Z) (flt : resample) : result (Z * Z) :=
  if (0 <? sz.1)%Z && (0 <? sz.2)%Z then Ok sz
  else Raise (mkExn ValueError "height and width must be > 0").

Definition toy_piexif_load (p : Path) (fs : FS toy_file) : result exif_dict :=
  match fs !! p with
  | Some (File c) =>
      if bool_decide (is_Some (pixels c)) then Ok (exif c)
      else Raise (mkExn (OtherException "InvalidImageDataError") "")
  | Some Dir => Raise IsADirectory
  | None => Raise FileNotFound
  end.

Definition toy_piexif_insert (b : exif_dict) (p : Path) (fs : FS toy_file)
    : FS toy_file * result unit :=
  match fs !! p with
  | Some (File c) =>
      if bool_decide (is_Some (pixels c)) then
        (<[p := File (mkFile (readable c) (json c) (pixels c) b (caption c))]> fs,
         Ok tt)
      else (fs, Raise (mkExn (OtherException "InvalidImageDataError") ""))
  | Some Dir => (fs, Raise IsADirectory)
  | None => (fs, Raise FileNotFound)
  end.

(** The caption container of an open file: its path and its caption. *)
Definition toy_IPTCInfo (p : Path) (force : bool) (fs : FS toy_file)
    : result (Path * option pyval) :=
  match fs !! p with
  | Some (File c) => Ok (p, caption c)
  | Some Dir => Raise IsADirectory
  | None => Raise FileNotFound
  end.

(** Saving keeps the previous file as a backup with a trailing [~]. *)
Definition backup_of (p : Path) : Path :=
  mkPath (root p) (removelast (parts p) ++ [name p +:+ "~"]).

Definition toy_IPTC_save (i : Path * option pyval) (fs : FS toy_file)
    : FS toy_file * result unit :=
  match fs !! i.1 with
  | Some (File c) =>
      (<[i.1 := File (mkFile (readable c) (json c) (pixels c) (exif c) i.2)]>
         (<[backup_of i.1 := File c]> fs),
       Ok tt)
  | Some Dir => (fs, Raise IsADirectory)
  | None => (fs, Raise FileNotFound)
  end.

Definition lib : Externals := {|
  Content := toy_file;
  Handle := option pyval;
  Image := Z * Z;
  ExifBytes := exif_dict;
  IptcInfo := Path * option pyval;
  datetime := toy_datetime;
  builtin_open := toy_open;
  json_load := toy_json_load;
  strptime := toy_strptime;
  strftime := toy_strftime;
  unlink := toy_unlink;
  shutil_move := toy_move;
  shutil_copy2 := toy_copy2;
  Image_open := toy_image_open;
  width := fst;
  height := snd;
  Image_convert := λ img _, Ok img;
  Image_save := toy_image_save;
  Image_resize := toy_resize;
  Image_new := λ _ sz _, Ok sz;
  rounded_rectangle := λ img _ _ _, Ok img;
  Image_putalpha := λ img _, Ok img;
  Image_paste := λ base _ _ _, Ok base;
  piexif_load := toy_piexif_load;
  piexif_dump := λ d, Ok d;
  piexif_insert := toy_piexif_insert;
  IPTCInfo := toy_IPTCInfo;
  IPTCInfo_setitem := λ i _ v, Ok (i.1, Some v);
  IPTCInfo_save := toy_IPTC_save
|}.

(** Example file systems and manifests. *)
Definition posts_json : Path := parse_path "posts.json".
Definition photo (n : string) : Path := truediv (parse_path "Photos/post/") n.

Definition output (n : string) : Path := truediv OUTPUT_FOLDER n.
Definition combined (n : string) : Path := truediv COMBINED_FOLDER n.

Definition folders : FS toy_file :=
  {[ parse_path "Photos/post/" := Dir;
     parse_path "Photos/post/__processed" := Dir;
     parse_path "Photos/post/__combined" := Dir ]}.

Definition post (primary secondary takenAt : string) : pyval :=
  PDict [("primary", PDict [("path", PStr primary)]);
         ("secondary", PDict [("path", PStr secondary)]);
         ("takenAt", PStr takenAt);
         ("caption", PStr "hello");
         ("location", PDict [("latitude", PFloat 51.5%float);
                             ("longitude", PFloat (-0.125)%float)])].

Definition entries : list pyval :=
  [post "/bereal/a.webp" "/bereal/b.jpg" "2023-01-15T10:30:45.123Z";
   post "/bereal/gone.jpg" "/bereal/b.jpg" "2023-01-16T08:00:00.000Z";
   PStr "not a post"].

Definition manifest : pyval := PList entries.

(** A manifest that exists and may not be read. *)
Definition fs_unreadable : FS toy_file :=
  <[ posts_json := File (mkFile false (Some manifest) None no_exif None) ]> folders.

(** The current directory, which always exists. *)
Definition cwd : Path := parse_path ".".
Definition fs_cwd : FS toy_file := {[ cwd := Dir ]}.

(** A folder where [b.jpg] and [b_1.jpg] are taken. *)
Definition fs_taken : FS toy_file :=
  <[ photo "b_1.jpg" := File (image_file (600, 800)%Z) ]>
  (<[ photo "b.jpg" := File (image_file (600, 800)%Z) ]> folders).

(** A file that is no image, under an image's name. *)
Definition corrupt_file : toy_file := mkFile true None None no_exif None.

Definition fs_corrupt : FS toy_file :=
  <[ photo "bad.webp" := File corrupt_file ]>
  (<[ photo "b.jpg" := File (image_file (600, 800)%Z) ]> folders).

Definition taken_at : toy_datetime :=
  mkDatetime "2023" "01" "15" "10" "30" "45".

(** A photo that already carries GPS fields. *)
Definition old_gps : gmap Z pyval :=
  <[ GPSLongitude := PList [PInt 0; PInt 7; PInt 30] ]>
  (<[ GPSLatitude := PList [PInt 51; PInt 30; PInt 0] ]> ∅).

Definition geotagged_file : toy_file :=
  mkFile true None (Some (600, 800)%Z) (mkExif ∅ ∅ old_gps ∅ ∅ None) None.

Definition fs_geotagged : FS toy_file :=
  <[ photo "geo.jpg" := File geotagged_file ]> folders.

Definition here : pyval :=
  PDict [("latitude", PList [PInt 48; PInt 51; PInt 24]);
         ("longitude", PList [PInt 2; PInt 21; PInt 3])].

Definition fs0 : FS toy_file :=
  <[ posts_json := File (json_file manifest) ]>
  (<[ photo "a.webp" := File (image_file (1500, 2000)%Z) ]>
  (<[ photo "b.jpg" := File (image_file (600, 800)%Z) ]> folders)).

(** A manifest that is a JSON object instead of a list. *)
Definition object_manifest : pyval :=
  PDict [("posts", PList []); ("user", PStr "me")].

Definition fs_object : FS toy_file :=
  <[ posts_json := File (json_file object_manifest) ]> folders.

(** An output folder with a processed image and its backup. *)
Definition fs_backups : FS toy_file :=
  <[ output "a.jpg~" := File (image_file (600, 800)%Z) ]>
  (<[ output "a.jpg" := File (image_file (600, 800)%Z) ]> folders).

(** Pillow without its JPEG encoder: every [save] raises, and it raises
    after the target was opened for writing, so that a file that was there
    is left empty. *)
Definition toy_image_save_no_jpeg (img : Z * Z) (p : Path) (fmt : string)
    (quality : option Z) (fs : FS toy_file) : FS toy_file * result unit :=
  match fs !! p with
  | Some Dir => (fs, Raise IsADirectory)
  | Some (File _) =>
      (<[p := File corrupt_file]> fs,
       Raise (mkExn OSError "encoder jpeg not available"))
  | None => (fs, Raise (mkExn OSError "encoder jpeg not available"))
  end.

Definition lib_no_jpeg : Externals := {|
  Content := toy_file;
  Handle := option pyval;
  Image := Z * Z;
  ExifBytes := exif_dict;
  IptcInfo := Path * option pyval;
  datetime := toy_datetime;
  builtin_open := toy_open;
  json_load := toy_json_load;
  strptime := toy_strptime;
  strftime := toy_strftime;
  unlink := toy_unlink;
  shutil_move := toy_move;
  shutil_copy2 := toy_copy2;
  Image_open := toy_image_open;
  width := fst;
  height := snd;
  Image_convert := λ img _, Ok img;
  Image_save := toy_image_save_no_jpeg;
  Image_resize := toy_resize;
  Image_new := λ _ sz _, Ok sz;
  rounded_rectangle := λ img _ _ _, Ok img;
  Image_putalpha := λ img _, Ok img;
  Image_paste := λ base _ _ _, Ok base;
  piexif_load := toy_piexif_load;
  piexif_dump := λ d, Ok d;
  piexif_insert := toy_piexif_insert;
  IPTCInfo := toy_IPTCInfo;
  IPTCInfo_setitem := λ i _ v, Ok (i.1, Some v);
  IPTCInfo_save := toy_IPTC_save
|}.

(** A photo folder where [a.webp] has a sibling [a.jpg] already. *)
Definition fs_sibling : FS toy_file :=
  <[ photo "a.jpg" := File (image_file (640, 480)%Z) ]> fs0.

(** A readable photo of two pixels by two. *)
Definition fs_tiny : FS toy_file :=
  <[ photo "tiny.jpg" := File (image_file (2, 2)%Z) ]> fs0.

(** A location whose coordinates are rationals, numerator and denominator. *)
Definition somewhere : pyval :=
  PDict [("latitude", PList [PInt 48; PInt 1]);
         ("longitude", PList [PInt 2; PInt 1])].

End Toy.

(** * Properties *)

(** ** Strings and paths *)

Module StrFacts.

Lemma app_nil (s : string) : "" +:+ s = s.
Proof. reflexivity. Qed.

Lemma app_cons (a : ascii) (s t : string) :
  String a s +:+ t = String a (s +:+ t).
Proof. reflexivity. Qed.

Lemma app_length (s t : string) :
  String.length (s +:+ t) = String.length s + String.length t.
Proof.
  induction s as [|a s IH]; [done|].
  rewrite app_cons. simpl. by rewrite IH.
Qed.

Lemma app_inj_r (s1 s2 t : string) : s1 +:+ t = s2 +:+ t → s1 = s2.
Proof.
  revert s2. induction s1 as [|a s1 IH]; intros [|b s2] Heq; [done|..].
  - apply (f_equal String.length) in Heq.
    rewrite app_nil, app_cons in Heq. simpl in Heq.
    rewrite app_length in Heq. lia.
  - apply (f_equal String.length) in Heq.
    rewrite app_nil, app_cons in Heq. simpl in Heq.
    rewrite app_length in Heq. lia.
  - rewrite !app_cons in Heq. injection Heq as -> Heq.
    f_equal. by apply IH.
Qed.

Lemma take_drop (i : nat) (s : string) : Str.take i s +:+ Str.drop i s = s.
Proof.
  revert s. induction i as [|i IH]; intros [|a s]; try done.
  simpl. rewrite app_cons. by rewrite IH.
Qed.

Lemma contains_app (c : ascii) (s t : string) :
  Str.contains c (s +:+ t) = Str.contains c s || Str.contains c t.
Proof.
  induction s as [|a s IH]; [done|].
  rewrite app_cons. simpl. rewrite IH. by rewrite orb_assoc.
Qed.

(** A decimal numeral has no separator, and determines its number. *)
Lemma string_of_uint_no_sep (d : Decimal.uint) :
  Str.contains sep (NilEmpty.string_of_uint d) = false.
Proof. induction d; simpl; done. Qed.

Lemma decimal_no_sep (k : nat) : Str.contains sep (Str.decimal k) = false.
Proof. apply string_of_uint_no_sep. Qed.

Lemma decimal_inj (j k : nat) : Str.decimal j = Str.decimal k → j = k.
Proof.
  unfold Str.decimal. intros Heq.
  apply (f_equal NilEmpty.uint_of_string) in Heq.
  rewrite !NilEmpty.usu in Heq. injection Heq as Heq.
  apply (f_equal Nat.of_uint) in Heq. by rewrite !Unsigned.of_to in Heq.
Qed.

End StrFacts.

Section PathFacts.
Import StrFacts.

Lemma stem_suffix (p : Path) : stem p +:+ suffix p = name p.
Proof.
  unfold stem, suffix. destruct (suffix_index (name p)) as [i|].
  - apply take_drop.
  - generalize (name p). intros s. induction s as [|a s IH]; [done|].
    rewrite app_cons. by rewrite IH.
Qed.

Lemma wf_path_name (p : Path) :
  wf_path p = true → Str.contains sep (name p) = false.
Proof.
  unfold wf_path, name. destruct p as [r ps]. simpl.
  induction ps as [|c ps IH]; [done|]. simpl.
  intros [Hc Hps]%andb_true_iff. destruct ps as [|c' ps'].
  - unfold wf_part in Hc. apply andb_true_iff in Hc as [_ Hc].
    by apply negb_true_iff in Hc.
  - by apply IH.
Qed.

Lemma numbered_valid (p : Path) (k : nat) :
  Str.contains sep (name p) = false → valid_name (numbered p k) = true.
Proof.
  intros Hwf. rewrite <-stem_suffix, contains_app in Hwf.
  apply orb_false_iff in Hwf as [Hst Hsu].
  unfold valid_name, numbered.
  rewrite !contains_app, Hst, Hsu, decimal_no_sep. simpl.
  rewrite andb_true_r. apply andb_true_iff; split; apply negb_true_iff,
    bool_decide_eq_false_2; intros Heq;
    apply (f_equal (Str.contains "_")) in Heq;
    rewrite contains_app in Heq; simpl in Heq;
    by rewrite orb_true_r in Heq.
Qed.

Lemma numbered_invalid (p : Path) (k : nat) :
  Str.contains sep (name p) = true → valid_name (numbered p k) = false.
Proof.
  intros Hwf. rewrite <-stem_suffix, contains_app in Hwf.
  unfold valid_name, numbered. rewrite !contains_app, decimal_no_sep.
  apply orb_true_iff in Hwf as [-> | ->]; simpl;
    by rewrite ?orb_true_r, ?andb_false_r.
Qed.

Lemma candidate_named (p : Path) (k : nat) :
  Str.contains sep (name p) = false → name p ≠ "" →
  candidate p k = Ok (mkPath (root p) (removelast (parts p) ++ [numbered p k])).
Proof.
  intros Hwf Hname. unfold candidate, with_name.
  rewrite bool_decide_eq_false_2 by done.
  fold (numbered p k). by rewrite numbered_valid.
Qed.

Lemma numbered_inj (p : Path) (j k : nat) :
  numbered p j = numbered p k → j = k.
Proof.
  unfold numbered. intros Heq.
  apply (inj (String.app _)) in Heq. apply (inj (String.app _)) in Heq.
  apply app_inj_r in Heq. by apply decimal_inj in Heq.
Qed.

Lemma numbered_not_name (p : Path) (k : nat) : numbered p k ≠ name p.
Proof.
  unfold numbered. rewrite <-(stem_suffix p). intros Heq.
  apply (inj (String.app _)) in Heq.
  apply (f_equal String.length) in Heq.
  rewrite !app_length in Heq. simpl in Heq. lia.
Qed.

Lemma candidate_inj (p q : Path) (j k : nat) :
  candidate p j = Ok q → candidate p k = Ok q → j = k.
Proof.
  unfold candidate, with_name. repeat case_match; try done.
  intros [= <-] [= Heq]. apply app_inj_tail in Heq as [_ Heq].
  by apply numbered_inj in Heq.
Qed.

Lemma candidate_not_self (p : Path) (k : nat) : candidate p k ≠ Ok p.
Proof.
  unfold candidate, with_name. repeat case_match; try done.
  intros [= Heq]. destruct p as [r ps]. simpl in *. subst.
  assert (ps ≠ []) as Hne.
  { intros ->. match goal with H : bool_decide _ = false |- _ =>
      by apply bool_decide_eq_false_1 in H end. }
  destruct (exists_last Hne) as (l & c & ->).
  rewrite removelast_last in *.
  injection Heq as Heq. apply app_inj_tail in Heq as [_ Heq].
  eapply (numbered_not_name (mkPath r (l ++ [c])) k).
  unfold numbered, name. simpl. by rewrite last_last.
Qed.

End PathFacts.

(** ** [get_unique_filename] *)

Section UniqueFilename.
Context {Content : Type}.
Implicit Types (fs : FS Content) (p q : Path).

Lemma numbered_path_name (p : Path) (k : nat) :
  name (numbered_path p k) = numbered p k.
Proof. unfold name, numbered_path. simpl. apply last_last. Qed.

Lemma probe_inj (p : Path) (i j : nat) :
  name p ≠ "" → probe p p 1 i = probe p p 1 j → i = j.
Proof.
  intros Hname. destruct i as [|i], j as [|j]; simpl; [done|..].
  - intros Heq%(f_equal name). rewrite numbered_path_name in Heq.
    by destruct (numbered_not_name p (S j)).
  - intros Heq%(f_equal name). rewrite numbered_path_name in Heq.
    by destruct (numbered_not_name p (S i)).
  - intros Heq%(f_equal name). rewrite !numbered_path_name in Heq.
    by apply numbered_inj in Heq.
Qed.

(** The loop returns the first probe that finds nothing, if the fuel
    reaches it. *)
Lemma probe_shift (p up : Path) (c i : nat) :
  probe p (numbered_path p c) (c + 1) i = probe p up c (S i).
Proof. destruct i as [|i]; simpl; f_equal; lia. Qed.

Lemma loop_first_missing (fuel : nat) fs p up (c n : nat) :
  Str.contains sep (name p) = false → name p ≠ "" →
  (∀ i, i < n → path_exists fs (probe p up c i) = true) →
  path_exists fs (probe p up c n) = false →
  n < fuel →
  get_unique_filename_loop fuel fs p up c = Some (Ok (probe p up c n)).
Proof.
  intros Hwf Hname. revert up c n.
  induction fuel as [|fuel IH]; intros up c n Hbefore Hmiss Hfuel; [lia|].
  simpl. destruct n as [|n].
  - simpl in Hmiss. by rewrite Hmiss.
  - pose proof (Hbefore 0 ltac:(lia)) as Hup. simpl in Hup. rewrite Hup.
    rewrite candidate_named by done. fold (numbered_path p c).
    rewrite (IH _ _ n).
    + by rewrite (probe_shift p up).
    + intros i Hi. rewrite (probe_shift p up). apply Hbefore. lia.
    + by rewrite (probe_shift p up).
    + lia.
Qed.

(** More fuel does not change a result. *)
Lemma loop_fuel_mono (fuel fuel' : nat) fs p up (c : nat) r :
  get_unique_filename_loop fuel fs p up c = Some r → fuel ≤ fuel' →
  get_unique_filename_loop fuel' fs p up c = Some r.
Proof.
  revert fuel' up c. induction fuel as [|fuel IH]; intros [|fuel'] up c;
    simpl; try done; try lia.
  intros Hrun Hle. destruct (path_exists fs up); [|done].
  destruct (candidate p c); [|done]. apply IH; [done|lia].
Qed.

(** Pigeonhole: the probes are distinct, so at most [size fs] of them in
    a row find a file. *)
Lemma probes_bounded fs p (m : nat) :
  name p ≠ "" →
  (∀ i, i < m → path_exists fs (probe p p 1 i) = true) → m ≤ size fs.
Proof.
  intros Hname Hall.
  assert (NoDup (probe p p 1 <$> seq 0 m)) as Hnodup.
  { apply NoDup_fmap_2_strong; [|apply NoDup_seq].
    intros i j _ _. by apply probe_inj. }
  trans (size (list_to_set (C := gset Path) (probe p p 1 <$> seq 0 m))).
  { rewrite size_list_to_set by done. by rewrite length_fmap, length_seq. }
  rewrite <-size_dom. apply subseteq_size.
  intros q [i [-> Hi]]%elem_of_list_to_set%list_elem_of_fmap.
  apply elem_of_seq in Hi. apply elem_of_dom.
  specialize (Hall i ltac:(lia)).
  by apply bool_decide_eq_true_1 in Hall.
Qed.

Lemma first_missing_probe fs p :
  name p ≠ "" →
  ∃ n, n ≤ size fs ∧
       (∀ i, i < n → path_exists fs (probe p p 1 i) = true) ∧
       path_exists fs (probe p p 1 n) = false.
Proof.
  intros Hname.
  assert (∀ m, (∃ n, n < m ∧
                 (∀ i, i < n → path_exists fs (probe p p 1 i) = true) ∧
                 path_exists fs (probe p p 1 n) = false)
               ∨ (∀ i, i < m → path_exists fs (probe p p 1 i) = true))
    as Hsearch.
  { induction m as [|m [(n & Hn & Hlow & Hmiss)|Hall]].
    - right. lia.
    - left. exists n. split_and!; [lia|done..].
    - destruct (path_exists fs (probe p p 1 m)) eqn:Hm.
      + right. intros i Hi. destruct (decide (i = m)) as [->|]; [done|].
        apply Hall. lia.
      + left. exists m. split_and!; [lia|done..]. }
  destruct (Hsearch (S (size fs))) as [(n & Hn & Hlow & Hmiss)|Hall].
  - exists n. split_and!; [lia|done..].
  - apply probes_bounded in Hall; [lia|done].
Qed.

(** The fuel [get_unique_filename] runs with always reaches a result. *)
Lemma get_unique_filename_fuel_enough fs p :
  ∃ r, get_unique_filename_on fs p = Some r.
Proof.
  destruct (decide (name p = "")) as [Hname|Hname].
  { unfold get_unique_filename_on, get_unique_filename_fuel. simpl.
    destruct (path_exists fs p); [|by eauto].
    unfold candidate, with_name. rewrite bool_decide_eq_true_2 by done.
    by eauto. }
  destruct (Str.contains sep (name p)) eqn:Hsep.
  { unfold get_unique_filename_on, get_unique_filename_fuel. simpl.
    destruct (path_exists fs p); [|by eauto].
    unfold candidate, with_name. rewrite bool_decide_eq_false_2 by done.
    fold (numbered p 1). rewrite numbered_invalid by done. by eauto. }
  destruct (first_missing_probe fs p Hname) as (n & Hn & Hlow & Hmiss).
  eexists. apply loop_first_missing; [done..|].
  unfold get_unique_filename_fuel. lia.
Qed.

End UniqueFilename.

(** ** Computations *)

Section MonadFacts.
Context `{E : Externals}.

Lemma bind_Ok {A B} (c : M A) (k : A → M B) fs a :
  res (c fs) = Ok a →
  bind c k fs = mkOut (res (k a (fs_of (c fs)))) (fs_of (k a (fs_of (c fs))))
                      (trace (c fs) ++ trace (k a (fs_of (c fs)))).
Proof. intros Hc. unfold bind. by rewrite Hc. Qed.

Lemma bind_Raise {A B} (c : M A) (k : A → M B) fs e :
  res (c fs) = Raise e →
  bind c k fs = mkOut (Raise e) (fs_of (c fs)) (trace (c fs)).
Proof. intros Hc. unfold bind. by rewrite Hc. Qed.

Lemma outcome_eta {A} (o : outcome A) : mkOut (res o) (fs_of o) (trace o) = o.
Proof. by destruct o. Qed.

Lemma prepend_nil {A} (o : outcome A) : prepend [] o = o.
Proof. by destruct o. Qed.

Lemma prepend_prepend {A} (t1 t2 : list event) (o : outcome A) :
  prepend t1 (prepend t2 o) = prepend (t1 ++ t2) o.
Proof. unfold prepend. cbn. by rewrite app_assoc. Qed.

(** A step of a sequence whose first computation is known. *)
Lemma bind_eq {A B} (c : M A) (k : A → M B) fs a fs1 tr :
  c fs = mkOut (Ok a) fs1 tr → bind c k fs = prepend tr (k a fs1).
Proof. intros Hc. unfold bind. by rewrite Hc. Qed.

Lemma bind_raise_eq {A B} (c : M A) (k : A → M B) fs e fs1 tr :
  c fs = mkOut (Raise e) fs1 tr → bind c k fs = mkOut (Raise e) fs1 tr.
Proof. intros Hc. unfold bind. by rewrite Hc. Qed.

(** A [try] whose handler only logs gives [Ok tt], leaves the file system
    of its body and appends one error line when the body raised. *)
Lemma try_log (c : M unit) (m : exn → message) fs :
  try_except c (λ e, logger_error (m e)) fs
  = mkOut (Ok tt) (fs_of (c fs)) (trace (c fs) ++ failure_log m (res (c fs))).
Proof.
  unfold try_except. destruct (c fs) as [[[]|e] fs' tr]; simpl.
  - by rewrite app_nil_r.
  - done.
Qed.

Lemma for_each_never_raises {A} (l : list A) (body : A → M unit) fs :
  (∀ x fs, res (body x fs) = Ok tt) → res (for_each l body fs) = Ok tt.
Proof.
  intros Hbody. revert fs. induction l as [|x l IH]; intros fs; [done|].
  simpl. rewrite (bind_Ok _ _ _ tt) by apply Hbody. simpl. apply IH.
Qed.

End MonadFacts.

(** ** The batch *)

Section Batch.
Context `{E : Externals}.
Implicit Types (fs : FS Content).

Lemma process_entry_guarded_eq entry fs :
  process_entry_guarded entry fs
  = mkOut (Ok tt) (fs_of (process_entry entry fs))
          (trace (process_entry entry fs)
             ++ failure_log (Error_processing_entry entry)
                            (res (process_entry entry fs))).
Proof. apply try_log. Qed.

(** The loop over the manifest follows [batch_run] and never raises. *)
Lemma for_each_entry_batch_run entries fs :
  ∃ fs' tr,
    for_each entries process_entry_guarded fs = mkOut (Ok tt) fs' tr
    ∧ batch_run entries fs fs' tr.
Proof.
  revert fs. induction entries as [|entry entries IH]; intros fs.
  - exists fs, []. split; [done|constructor].
  - destruct (IH (fs_of (process_entry entry fs))) as (fs' & tr & Hrun & Hbatch).
    simpl. rewrite (bind_Ok _ _ _ tt) by by rewrite process_entry_guarded_eq.
    rewrite process_entry_guarded_eq. simpl. rewrite Hrun. simpl.
    destruct (res (process_entry entry fs)) as [[]|e] eqn:Hres.
    + exists fs', (trace (process_entry entry fs) ++ tr). split.
      * by rewrite app_nil_r.
      * by constructor.
    + eexists fs', _. split.
      * by rewrite <-app_assoc.
      * by apply batch_entry_failed.
Qed.

(** [batch_run] has exactly one outcome for a manifest and a file system. *)
Lemma batch_run_deterministic entries fs fs1 tr1 fs2 tr2 :
  batch_run entries fs fs1 tr1 → batch_run entries fs fs2 tr2 →
  fs1 = fs2 ∧ tr1 = tr2.
Proof.
  intros Hrun. revert fs2 tr2.
  induction Hrun as [fs|entry entries fs fs' tr Hres _ IH
                       |entry entries fs e fs' tr Hres _ IH];
    intros fs2 tr2 Hrun2; inversion Hrun2; subst; try congruence; try done.
  - destruct (IH _ _ ltac:(eassumption)) as [-> ->]. done.
  - assert (e0 = e) as -> by congruence.
    destruct (IH _ _ ltac:(eassumption)) as [-> ->]. done.
Qed.

(** Removing one backup file never raises. *)
Lemma remove_backup_file_eq backup_file fs :
  let o := call_rw (unlink backup_file) (CUnlink backup_file) fs in
  remove_backup_file backup_file fs
  = mkOut (Ok tt) (fs_of o)
          (trace o ++ match res o with
                      | Ok _ => [Log INFO (Removed_backup_file backup_file)]
                      | Raise e => [Log ERROR (Error_removing backup_file e)]
                      end).
Proof.
  unfold remove_backup_file, try_except, bind, call_rw, logger_info,
    logger_error. simpl.
  destruct (unlink backup_file fs).2 as [[]|e]; done.
Qed.

Lemma for_each_remove_backup_file (l : list Path) fs :
  res (for_each l remove_backup_file fs) = Ok tt
  ∧ omap unlinked (trace (for_each l remove_backup_file fs)) = l.
Proof.
  revert fs. induction l as [|p l IH]; intros fs; [done|].
  simpl. rewrite (bind_Ok _ _ _ tt) by by rewrite remove_backup_file_eq.
  simpl. destruct (IH (fs_of (remove_backup_file p fs))) as [-> Hl].
  split; [done|]. rewrite omap_app, Hl, remove_backup_file_eq. simpl.
  by destruct (unlink p fs).2.
Qed.

(** The purge of a folder never raises, and tries to delete exactly the
    entries of the folder whose name ends in [~]. *)
Lemma remove_backup_files_ok directory fs :
  res (remove_backup_files directory fs) = Ok tt
  ∧ omap unlinked (trace (remove_backup_files directory fs))
    = glob_star directory "~" fs.
Proof.
  unfold remove_backup_files, bind, get_fs. simpl.
  destruct (for_each_remove_backup_file (glob_star directory "~" fs) fs)
    as [-> Hl]. done.
Qed.

End Batch.

(** ** The claims about the driver's batch *)

(** A run whose manifest loads: the loop over the entries, then the two
    purges. *)
Lemma process_files_loaded `{E : Externals} (fs : FS Content)
    (f : Handle) (data : pyval) (entries : list pyval) :
  builtin_open POSTS_JSON fs = Ok f →
  json_load f = Ok data →
  py_iter data = Ok entries →
  ∃ fs1 tr,
    batch_run entries fs fs1 tr
    ∧ process_files fs
      = mkOut (Ok tt)
          (fs_of (remove_backup_files COMBINED_FOLDER
                    (fs_of (remove_backup_files OUTPUT_FOLDER fs1))))
          (COpen POSTS_JSON (Ok f) :: CJsonLoad f (Ok data)
             :: tr
             ++ trace (remove_backup_files OUTPUT_FOLDER fs1)
             ++ trace (remove_backup_files COMBINED_FOLDER
                         (fs_of (remove_backup_files OUTPUT_FOLDER fs1)))).
Proof.
  intros Hopen Hjson Hiter.
  destruct (for_each_entry_batch_run entries fs) as (fs1 & tr & Hloop & Hbatch).
  exists fs1, tr. split; [done|].
  destruct (remove_backup_files_ok OUTPUT_FOLDER fs1) as [Hres1 _].
  destruct (remove_backup_files_ok COMBINED_FOLDER
              (fs_of (remove_backup_files OUTPUT_FOLDER fs1))) as [Hres2 _].
  unfold process_files, try_except_cls, load_manifest, bind,
    call_ro, call_pure, ret, lift.
  cbn. rewrite Hopen. cbn. rewrite Hjson. cbn. rewrite Hiter. cbn.
  rewrite Hloop. cbn. rewrite Hres1. cbn. unfold prepend. cbn.
  by rewrite Hres2.
Qed.

(** C1: once the manifest is loaded, [process_files] raises nothing; every
    entry is processed in manifest order from the file system its
    predecessors left ([batch_run]); an entry whose processing raises, at
    whatever step, leaves one error line naming it and the next entry is
    processed; and after the last entry the purge runs on the output folder
    and then on the combined folder, trying to delete exactly their backup
    files, however many entries failed. *)
Theorem process_files_completes_batch `{E : Externals} (fs : FS Content)
    (f : Handle) (data : pyval) (entries : list pyval) :
  builtin_open POSTS_JSON fs = Ok f →
  json_load f = Ok data →
  py_iter data = Ok entries →
  ∃ fs1 tr,
    batch_run entries fs fs1 tr
    ∧ omap unlinked (trace (remove_backup_files OUTPUT_FOLDER fs1))
      = glob_star OUTPUT_FOLDER "~" fs1
    ∧ omap unlinked
        (trace (remove_backup_files COMBINED_FOLDER
                  (fs_of (remove_backup_files OUTPUT_FOLDER fs1))))
      = glob_star COMBINED_FOLDER "~"
                  (fs_of (remove_backup_files OUTPUT_FOLDER fs1))
    ∧ process_files fs
      = mkOut (Ok tt)
          (fs_of (remove_backup_files COMBINED_FOLDER
                    (fs_of (remove_backup_files OUTPUT_FOLDER fs1))))
          (COpen POSTS_JSON (Ok f) :: CJsonLoad f (Ok data)
             :: tr
             ++ trace (remove_backup_files OUTPUT_FOLDER fs1)
             ++ trace (remove_backup_files COMBINED_FOLDER
                         (fs_of (remove_backup_files OUTPUT_FOLDER fs1)))).
Proof.
  intros Hopen Hjson Hiter.
  destruct (process_files_loaded fs f data entries Hopen Hjson Hiter)
    as (fs1 & tr & Hbatch & Hrun).
  exists fs1, tr. split_and!; [done| | |done].
  - apply remove_backup_files_ok.
  - apply remove_backup_files_ok.
Qed.

Lemma process_files_completes_batch_witness :
  res (process_files (E := Toy.lib) Toy.fs0) = Ok tt.
Proof.
  destruct (process_files_completes_batch (E := Toy.lib) Toy.fs0
              (Some Toy.manifest) Toy.manifest Toy.entries
              eq_refl eq_refl eq_refl) as (fs1 & tr & _ & _ & _ & ->).
  reflexivity.
Defined.

(** C2, as the code has it: a missing manifest ([FileNotFoundError]) is
    logged and the run returns at once, with no entry processed and no
    purge.  Any other failure to open or parse the manifest, and a manifest
    that is not iterable, raises out of [process_files] with nothing logged.
    When the manifest loads to something iterable, nothing is raised. *)
Theorem process_files_manifest_cases `{E : Externals} (fs : FS Content) :
  match builtin_open POSTS_JSON fs with
  | Raise e =>
      process_files fs =
        if decide (exn_cls e = FileNotFoundError)
        then mkOut (Ok tt) fs
               [COpen POSTS_JSON (Raise e); Log ERROR JSON_file_not_found]
        else mkOut (Raise e) fs [COpen POSTS_JSON (Raise e)]
  | Ok f =>
      match json_load f with
      | Raise e =>
          process_files fs =
            if decide (exn_cls e = FileNotFoundError)
            then mkOut (Ok tt) fs
                   [COpen POSTS_JSON (Ok f); CJsonLoad f (Raise e);
                    Log ERROR JSON_file_not_found]
            else mkOut (Raise e) fs
                   [COpen POSTS_JSON (Ok f); CJsonLoad f (Raise e)]
      | Ok data =>
          match py_iter data with
          | Raise e =>
              process_files fs =
                mkOut (Raise e) fs
                      [COpen POSTS_JSON (Ok f); CJsonLoad f (Ok data)]
          | Ok entries => res (process_files fs) = Ok tt
          end
      end
  end.
Proof.
  destruct (builtin_open POSTS_JSON fs) as [f|e] eqn:Hopen.
  - destruct (json_load f) as [data|e] eqn:Hjson.
    + destruct (py_iter data) as [entries|e] eqn:Hiter.
      * destruct (process_files_loaded fs f data entries)
          as (fs1 & tr & _ & ->); done.
      * unfold process_files, try_except_cls, load_manifest, bind,
          call_ro, call_pure, ret, lift.
        simpl. rewrite Hopen. simpl. rewrite Hjson. simpl. by rewrite Hiter.
    + unfold process_files, try_except_cls, load_manifest, bind,
        call_ro, call_pure, ret, lift, logger_error.
      simpl. rewrite Hopen. simpl. rewrite Hjson. simpl.
      by destruct (decide (exn_cls e = FileNotFoundError)).
  - unfold process_files, try_except_cls, load_manifest, bind,
      call_ro, call_pure, ret, lift, logger_error.
    simpl. rewrite Hopen. simpl.
    by destruct (decide (exn_cls e = FileNotFoundError)).
Qed.

(** C2 as stated fails: a manifest that exists and cannot be read makes
    [process_files] raise, and no error line is logged. *)
Lemma process_files_unreadable_manifest_raises :
  res (process_files (E := Toy.lib) Toy.fs_unreadable)
  = Raise Toy.PermissionDenied
  ∧ omap error_line (trace (process_files (E := Toy.lib) Toy.fs_unreadable))
    = [].
Proof. split; vm_compute; reflexivity. Qed.

(** ** The claim about unique file names *)

(** C3, for a path with a file name: a path that does not exist is returned
    unchanged; for a path that exists the result is the path with [_k]
    inserted between stem and suffix, in the same folder, where [k >= 1] is
    the lowest counter whose path does not exist.  The loop always ends on
    a finite file system. *)
Theorem get_unique_filename_lowest_free `{E : Externals} (fs : FS Content)
    (p : Path) :
  wf_path p = true → name p ≠ "" →
  (path_exists fs p = false → get_unique_filename p fs = mkOut (Ok p) fs [])
  ∧ (path_exists fs p = true →
     ∃ k, 1 ≤ k
       ∧ get_unique_filename p fs = mkOut (Ok (numbered_path p k)) fs []
       ∧ name (numbered_path p k) = stem p +:+ "_" +:+ Str.decimal k +:+ suffix p
       ∧ parent (numbered_path p k) = parent p
       ∧ stem p +:+ suffix p = name p
       ∧ path_exists fs (numbered_path p k) = false
       ∧ ∀ j, 1 ≤ j < k → path_exists fs (numbered_path p j) = true).
Proof.
  intros Hwf%wf_path_name Hname.
  destruct (first_missing_probe fs p Hname) as (n & Hn & Hlow & Hmiss).
  pose proof (loop_first_missing (get_unique_filename_fuel fs) fs p p 1 n
                Hwf Hname Hlow Hmiss) as Hrun.
  unfold get_unique_filename, get_unique_filename_on.
  rewrite Hrun by (unfold get_unique_filename_fuel; lia). simpl.
  split.
  - intros Hp. destruct n as [|n]; [done|].
    specialize (Hlow 0 ltac:(lia)). simpl in Hlow. congruence.
  - intros Hp. destruct n as [|n]; [simpl in Hmiss; congruence|].
    exists (S n). simpl in *. split_and!.
    + lia.
    + done.
    + apply numbered_path_name.
    + unfold parent, numbered_path. simpl. by rewrite removelast_last.
    + apply stem_suffix.
    + done.
    + intros j Hj. specialize (Hlow j ltac:(lia)).
      destruct j as [|j]; [lia|]. done.
Qed.

Lemma get_unique_filename_lowest_free_witness :
  (path_exists Toy.fs_taken (Toy.photo "b.jpg") = false →
   get_unique_filename (E := Toy.lib) (Toy.photo "b.jpg") Toy.fs_taken
   = mkOut (E := Toy.lib) (Ok (Toy.photo "b.jpg")) Toy.fs_taken [])
  ∧ (path_exists Toy.fs_taken (Toy.photo "b.jpg") = true →
     ∃ k, 1 ≤ k
       ∧ get_unique_filename (E := Toy.lib) (Toy.photo "b.jpg") Toy.fs_taken
         = mkOut (E := Toy.lib) (Ok (numbered_path (Toy.photo "b.jpg") k)) Toy.fs_taken []
       ∧ name (numbered_path (Toy.photo "b.jpg") k)
         = stem (Toy.photo "b.jpg") +:+ "_" +:+ Str.decimal k
             +:+ suffix (Toy.photo "b.jpg")
       ∧ parent (numbered_path (Toy.photo "b.jpg") k)
         = parent (Toy.photo "b.jpg")
       ∧ stem (Toy.photo "b.jpg") +:+ suffix (Toy.photo "b.jpg")
         = name (Toy.photo "b.jpg")
       ∧ path_exists Toy.fs_taken (numbered_path (Toy.photo "b.jpg") k) = false
       ∧ ∀ j, 1 ≤ j < k →
              path_exists Toy.fs_taken (numbered_path (Toy.photo "b.jpg") j)
              = true).
Proof.
  apply (get_unique_filename_lowest_free (E := Toy.lib)).
  - reflexivity.
  - vm_compute. discriminate.
Defined.

(** On that file system the counter found is 2. *)
Example get_unique_filename_taken :
  res (get_unique_filename (E := Toy.lib) (Toy.photo "b.jpg") Toy.fs_taken)
  = Ok (Toy.photo "b_2.jpg").
Proof. vm_compute. reflexivity. Qed.

(** C3 as stated fails for a path without a file name: the current
    directory exists, and [with_name] refuses to rename it. *)
Lemma get_unique_filename_cwd_raises :
  path_exists Toy.fs_cwd Toy.cwd = true
  ∧ res (get_unique_filename (E := Toy.lib) Toy.cwd Toy.fs_cwd)
    = Raise (mkExn ValueError "path has an empty name").
Proof. split; vm_compute; reflexivity. Qed.

(** ** Properties of every trace of a computation *)

Section Traces.
Context `{E : Externals}.
Context (P : list event → Prop) (HP : closed P).

Lemma traces_ret {A} (a : A) : traces P (ret a).
Proof. intros fs. apply HP. Qed.

Lemma traces_lift {A} (r : result A) : traces P (lift r).
Proof. intros fs. apply HP. Qed.

Lemma traces_get_fs : traces P get_fs.
Proof. intros fs. apply HP. Qed.

Lemma traces_get_unique_filename (p : Path) : traces P (get_unique_filename p).
Proof. intros fs. apply HP. Qed.

Lemma traces_call_ro {A} (op : FS Content → result A) (ev : result A → event) :
  (∀ r, P [ev r]) → traces P (call_ro op ev).
Proof. intros Hev fs. apply Hev. Qed.

Lemma traces_call_rw {A} (op : FS Content → FS Content * result A)
    (ev : result A → event) :
  (∀ r, P [ev r]) → traces P (call_rw op ev).
Proof. intros Hev fs. apply Hev. Qed.

Lemma traces_call_pure {A} (r : result A) (ev : result A → event) :
  P [ev r] → traces P (call_pure r ev).
Proof. intros Hev fs. apply Hev. Qed.

Lemma traces_logger_info (m : message) : P [Log INFO m] → traces P (logger_info m).
Proof. intros Hev fs. apply Hev. Qed.

Lemma traces_logger_error (m : message) :
  P [Log ERROR m] → traces P (logger_error m).
Proof. intros Hev fs. apply Hev. Qed.

Lemma traces_bind {A B} (c : M A) (k : A → M B) :
  traces P c → (∀ a, traces P (k a)) → traces P (bind c k).
Proof.
  intros Hc Hk fs. unfold bind. destruct (res (c fs)) as [a|e]; simpl.
  - apply HP; [apply Hc|apply Hk].
  - apply Hc.
Qed.

Lemma traces_try_except {A} (c : M A) (h : exn → M A) :
  traces P c → (∀ e, traces P (h e)) → traces P (try_except c h).
Proof.
  intros Hc Hh fs. unfold try_except. destruct (res (c fs)) as [a|e] eqn:Hres.
  - apply Hc.
  - simpl. apply HP; [apply Hc|apply Hh].
Qed.

Lemma traces_try_except_cls {A} (cls : exn_class) (c h : M A) :
  traces P c → traces P h → traces P (try_except_cls cls c h).
Proof.
  intros Hc Hh fs. unfold try_except_cls.
  destruct (res (c fs)) as [a|e] eqn:Hres; [apply Hc|].
  destruct (decide (exn_cls e = cls)); [|apply Hc].
  simpl. apply HP; [apply Hc|apply Hh].
Qed.

Lemma traces_for_each {A} (l : list A) (body : A → M unit) :
  (∀ x, traces P (body x)) → traces P (for_each l body).
Proof.
  intros Hbody. induction l as [|x l IH]; simpl.
  - apply traces_ret.
  - apply traces_bind; [apply Hbody|]. intros _. apply IH.
Qed.

End Traces.


(** ** The metadata writer *)

Section Metadata.
Context `{E : Externals}.
Implicit Types (fs : FS Content) (p : Path).

Lemma update_metadata_eq p (t : datetime) (caption location : pyval) fs :
  update_metadata p t caption location fs
  = mkOut (Ok tt) (fs_of (update_iptc p caption (fs_of (update_exif p t location fs))))
          (trace (update_exif p t location fs)
             ++ failure_log (Failed_to_update_EXIF p)
                            (res (update_exif p t location fs))
             ++ trace (update_iptc p caption (fs_of (update_exif p t location fs)))
             ++ failure_log (Failed_to_update_IPTC p)
                  (res (update_iptc p caption
                          (fs_of (update_exif p t location fs))))).
Proof.
  unfold update_metadata.
  rewrite (bind_Ok _ _ _ tt) by by rewrite try_log.
  rewrite !try_log. cbn. by rewrite <-!app_assoc.
Qed.

(** The capture block opens the capture container of [p] first, opens
    nothing else, and logs nothing itself. *)
Lemma update_exif_opens p (t : datetime) (location : pyval) fs :
  omap container_opened (trace (update_exif p t location fs)) = [(Capture, p)]
  ∧ omap error_line (trace (update_exif p t location fs)) = []
  ∧ omap moved (trace (update_exif p t location fs)) = [].
Proof.
  unfold update_exif, bind, call_ro, call_rw, call_pure, lift, ret. cbn.
  repeat (case_match; cbn; try done).
Qed.


Lemma update_iptc_opens p (caption : pyval) fs :
  omap container_opened (trace (update_iptc p caption fs)) = [(Caption, p)]
  ∧ omap error_line (trace (update_iptc p caption fs)) = []
  ∧ omap moved (trace (update_iptc p caption fs)) = [].
Proof.
  unfold update_iptc, bind, call_ro, call_rw, call_pure, lift, ret. cbn.
  repeat (case_match; cbn; try done).
Qed.



End Metadata.


(** ** GPS data *)

Section Gps.
Context `{E : Externals}.
Implicit Types (fs : FS Content) (p : Path).












End Gps.

(** ** What the driver reads of an entry *)

Section EntryFields.
Context `{E : Externals}.
Implicit Types (fs : FS Content) (d : list (string * pyval)).






End EntryFields.


(** ** The paths the driver builds *)

Section DriverPaths.
Import StrFacts.

Lemma rev_app_contains (c : ascii) (s1 s2 : string) :
  Str.contains c (String.rev_app s1 s2) = Str.contains c s1 || Str.contains c s2.
Proof.
  revert s2. induction s1 as [|a s1 IH]; intros s2; [done|].
  simpl. rewrite IH. simpl. by destruct (bool_decide (a = c)), (Str.contains c s1).
Qed.

Lemma rev_app_app (s1 s2 t : string) :
  String.rev_app s1 (s2 +:+ t) = String.rev_app s1 s2 +:+ t.
Proof.
  revert s2. induction s1 as [|a s1 IH]; intros s2; [done|].
  simpl. by rewrite <-IH.
Qed.

(** The fields of a split hold no separator. *)
Lemma split_go_no_sep (cur s : string) :
  Str.contains sep cur = false →
  Forall (λ f, Str.contains sep f = false) (Str.split_go sep cur s).
Proof.
  revert cur. induction s as [|a s IH]; intros cur Hcur; simpl.
  - constructor; [|done]. unfold String.rev. by rewrite rev_app_contains, Hcur.
  - destruct (decide (a = sep)) as [->|Hne].
    + constructor; [|by apply IH].
      unfold String.rev. by rewrite rev_app_contains, Hcur.
    + apply IH. simpl. by rewrite Hcur, bool_decide_eq_false_2.
Qed.

(** Text without separator appended to a string extends its last field. *)
Lemma split_go_snoc (cur s : string) :
  ∃ l f, Str.split_go sep cur s = l ++ [f]
         ∧ ∀ t, Str.contains sep t = false →
                Str.split_go sep cur (s +:+ t) = l ++ [f +:+ t].
Proof.
  revert cur. induction s as [|a s IH]; intros cur.
  - exists [], (String.rev cur). split; [done|]. intros t Ht.
    rewrite app_nil. revert cur. induction t as [|b t IHt]; intros cur.
    + simpl. f_equal. unfold String.rev. by rewrite <-rev_app_app.
    + simpl in *. apply orb_false_iff in Ht as [Hb Ht].
      apply bool_decide_eq_false_1 in Hb.
      destruct (decide (b = sep)); [done|].
      rewrite IHt by done. unfold String.rev. simpl. f_equal.
      by rewrite <-!rev_app_app.
  - simpl. destruct (decide (a = sep)) as [->|Hne].
    + destruct (IH "") as (l & f & Hs & Happ).
      exists (String.rev cur :: l), f. split; [by rewrite Hs|].
      intros t Ht. rewrite ?app_cons. simpl. by rewrite Happ.
    + destruct (IH (String a cur)) as (l & f & Hs & Happ).
      exists l, f. split; [done|].
      intros t Ht. rewrite ?app_cons. simpl.
      destruct (decide (a = sep)); [done|]. by apply Happ.
Qed.

Lemma split_go_single (cur s : string) :
  Str.contains sep s = false →
  Str.split_go sep cur s = [String.rev_app cur s].
Proof.
  revert cur. induction s as [|a s IH]; intros cur Hs; [done|].
  simpl in *. apply orb_false_iff in Hs as [Ha Hs].
  apply bool_decide_eq_false_1 in Ha.
  destruct (decide (a = sep)); [done|]. by rewrite IH.
Qed.

Lemma parse_path_wf (s : string) : wf_path (parse_path s) = true.
Proof.
  unfold wf_path, parse_path, Str.split. simpl.
  apply forallb_forall. intros c Hc%list_elem_of_In%list_elem_of_filter.
  destruct Hc as [Hkeep Hc]. unfold wf_part. rewrite Hkeep. simpl.
  pose proof (split_go_no_sep "" s eq_refl) as Hall.
  rewrite Forall_forall in Hall. by rewrite (Hall c Hc).
Qed.

(** A single well-formed component parses to itself. *)
Lemma parse_path_part (c : string) :
  wf_part c = true → parse_path c = mkPath false [c].
Proof.
  unfold wf_part. intros [Hkeep Hsep%negb_true_iff]%andb_true_iff.
  unfold parse_path, Str.split. rewrite split_go_single by done. simpl.
  rewrite filter_cons, decide_True by done. f_equal.
  destruct c as [|a c]; [done|]. simpl in *.
  apply orb_false_iff in Hsep as [Ha _]. done.
Qed.

Lemma truediv_part (dir : Path) (c : string) :
  wf_part c = true → truediv dir c = mkPath (root dir) (parts dir ++ [c]).
Proof. intros Hc. unfold truediv. by rewrite parse_path_part. Qed.

Lemma wf_path_last (p : Path) :
  wf_path p = true → name p ≠ "" → wf_part (name p) = true.
Proof.
  unfold wf_path, name. destruct p as [r ps]. simpl.
  induction ps as [|c ps IH]; [done|]. simpl.
  intros [Hc Hps]%andb_true_iff Hname. destruct ps as [|c' ps']; [done|].
  by apply IH.
Qed.

Lemma wf_path_snoc (dir : Path) (c : string) :
  wf_path dir = true → wf_part c = true →
  wf_path (mkPath (root dir) (parts dir ++ [c])) = true.
Proof.
  unfold wf_path. simpl. intros Hdir Hc.
  rewrite forallb_app, Hdir. simpl. by rewrite Hc.
Qed.

Lemma name_snoc (r : bool) (l : list string) (c : string) :
  name (mkPath r (l ++ [c])) = c.
Proof. unfold name. simpl. apply last_last. Qed.

Lemma wf_part_nonempty (c : string) : wf_part c = true → c ≠ "".
Proof. by intros Hc ->. Qed.

(** A source path of an entry is a well-formed path with a file name. *)
Lemma source_path_wf (entry : pyval) (which : string) (p : Path) :
  source_path entry which = Ok p → wf_path p = true ∧ name p ≠ "".
Proof.
  unfold source_path. repeat case_match; try done. intros [= <-].
  match goal with H : Path_of _ = Ok ?q |- _ =>
    assert (wf_path q = true) as Hq
      by (unfold Path_of in H; case_match; try done;
          injection H as <-; apply parse_path_wf);
    destruct (decide (name q = "")) as [->|Hname]
  end.
  - by vm_compute.
  - pose proof (wf_path_last _ Hq Hname) as Hpart.
    rewrite truediv_part by done. split.
    + by apply wf_path_snoc.
    + rewrite name_snoc. by apply wf_part_nonempty.
Qed.

(** The file of a processed image in the output folder. *)
Lemma output_path_wf (image_path : Path) :
  wf_path image_path = true → name image_path ≠ "" →
  wf_path (truediv OUTPUT_FOLDER (name image_path)) = true
  ∧ name (truediv OUTPUT_FOLDER (name image_path)) = name image_path.
Proof.
  intros Hwf Hname. pose proof (wf_path_last _ Hwf Hname) as Hpart.
  rewrite truediv_part by done. split.
  - by apply wf_path_snoc.
  - apply name_snoc.
Qed.

(** The file of a composite in the combined folder, whatever the
    timestamp formats to. *)
Lemma combined_path_wf (stamp : string) :
  wf_path (truediv COMBINED_FOLDER (stamp +:+ "_combined.jpg")) = true
  ∧ name (truediv COMBINED_FOLDER (stamp +:+ "_combined.jpg")) ≠ "".
Proof.
  assert (wf_path (parse_path (stamp +:+ "_combined.jpg")) = true
          ∧ name (parse_path (stamp +:+ "_combined.jpg")) ≠ "") as [Hwf Hname].
  { split; [apply parse_path_wf|].
    unfold parse_path, Str.split, name. simpl.
    destruct (split_go_snoc "" stamp) as (l & f & _ & Happ).
    rewrite (Happ "_combined.jpg") by done.
    rewrite filter_app, filter_cons, decide_True.
    - rewrite filter_nil, last_last. intros Heq.
      apply (f_equal String.length) in Heq.
      rewrite app_length in Heq. simpl in Heq. lia.
    - unfold keep_part. apply andb_true_iff; split; apply negb_true_iff,
        bool_decide_eq_false_2; intros Heq;
        apply (f_equal String.length) in Heq;
        rewrite app_length in Heq; simpl in Heq; lia. }
  unfold truediv. destruct (root (parse_path _)) eqn:Hroot; [done|].
  generalize dependent (parse_path (stamp +:+ "_combined.jpg")).
  intros q Hwf Hname _. split.
  - unfold wf_path in *. cbn [parts]. rewrite forallb_app, Hwf.
    by vm_compute.
  - unfold name in *. cbn [parts].
    destruct (parts q) as [|c l] eqn:Hparts; [done|].
    destruct (exists_last (l := c :: l) ltac:(done)) as (l' & x & Heq).
    rewrite Heq in *. rewrite app_assoc, last_last.
    by rewrite last_last in Hname.
Qed.

End DriverPaths.

(** ** The toy libraries obey the laws the claims assume *)

Section ToyLaws.
Import Toy.




Lemma toy_exif_read_back : exif_read_back (E := lib).
Proof.
  intros d b p fs fs'. simpl in *. intros [= <-].
  unfold toy_piexif_insert, toy_piexif_load.
  destruct (fs !! p) as [[|c]|] eqn:Hp; try done.
  case_bool_decide as Hpix; [|done]. intros [= <-].
  exists d. rewrite lookup_insert_eq. simpl. by rewrite bool_decide_eq_true_2.
Qed.

Lemma toy_caption_keeps_capture : caption_keeps_capture (E := lib).
Proof.
  intros p cap fs.
  unfold update_iptc, bind, call_ro, call_rw, call_pure, ret. simpl in *.
  unfold toy_IPTCInfo, toy_IPTC_save, toy_piexif_load.
  destruct (fs !! p) as [[|c]|] eqn:Hp; simpl; rewrite ?Hp; try done.
  destruct (truthy cap); simpl; rewrite Hp; simpl;
    by rewrite lookup_insert_eq.
Qed.

Lemma toy_pillow_sizes : pillow_sizes (E := lib).
Proof.
  split; simpl.
  - intros img sz flt r. unfold toy_resize. case_match; [|done].
    intros [= <-]. by destruct sz.
  - intros mode sz color r [= <-]. by destruct sz.
  - by intros img xy radius fill r [= <-].
  - by intros img mask r [= <-].
  - by intros base im box mask r [= <-].
  - intros img p fmt quality fs fs'. simpl in *.
    unfold toy_image_save. intros [= <-].
    exists img. unfold toy_image_open. by rewrite lookup_insert_eq.
Qed.

End ToyLaws.

(** ** Conversion *)

Section Conversion.
Context `{E : Externals}.
Implicit Types (fs : FS Content) (p : Path).

(** A path that is well-formed and has a name gets a unique name, which
    does not exist and is again well-formed with a name. *)
Lemma numbered_path_wf p (k : nat) :
  wf_path p = true → name p ≠ "" →
  wf_path (numbered_path p k) = true ∧ name (numbered_path p k) ≠ "".
Proof.
  intros Hwf Hname. pose proof (wf_path_name p Hwf) as Hsep.
  pose proof (numbered_valid p k Hsep) as Hvalid.
  unfold valid_name in Hvalid.
  apply andb_true_iff in Hvalid as [[Hne Hns]%andb_true_iff Hnd].
  split.
  - unfold wf_path, numbered_path in *. cbn [parts].
    rewrite forallb_app. apply andb_true_iff. split.
    + apply forallb_forall. intros c Hc.
      rewrite forallb_forall in Hwf. apply Hwf.
      destruct (parts p) as [|c0 l] eqn:Hparts; [done|].
      destruct (exists_last (l := c0 :: l) ltac:(done)) as (l' & x & Heq).
      rewrite Heq, removelast_last in Hc. rewrite Heq.
      apply in_or_app. by left.
    + cbn. unfold wf_part, keep_part. by rewrite Hne, Hns, Hnd.
  - rewrite numbered_path_name. intros Heq. rewrite Heq in Hne. done.
Qed.

Lemma get_unique_filename_total fs p :
  wf_path p = true → name p ≠ "" →
  ∃ q, get_unique_filename p fs = mkOut (Ok q) fs []
       ∧ path_exists fs q = false
       ∧ wf_path q = true ∧ name q ≠ "".
Proof.
  intros Hwf Hname. pose proof (wf_path_name p Hwf) as Hsep.
  destruct (first_missing_probe fs p Hname) as (n & Hn & Hlow & Hmiss).
  exists (probe p p 1 n). split_and!; [|done|..].
  - unfold get_unique_filename, get_unique_filename_on.
    rewrite (loop_first_missing _ fs p p 1 n) by
      (try done; unfold get_unique_filename_fuel; lia).
    done.
  - destruct n; [done|]. by apply numbered_path_wf.
  - destruct n; [done|]. by apply numbered_path_wf.
Qed.

(** What the body of the conversion leaves in the trace. *)
Lemma convert_body_events image_path jpg_path fs :
  omap log_line (trace (convert_webp_to_jpg_body image_path jpg_path fs))
  = match res (convert_webp_to_jpg_body image_path jpg_path fs) with
    | Ok _ => [(INFO, Converted_to_JPEG image_path)]
    | Raise _ => []
    end
  ∧ omap moved (trace (convert_webp_to_jpg_body image_path jpg_path fs)) = []
  ∧ omap container_opened
      (trace (convert_webp_to_jpg_body image_path jpg_path fs)) = [].
Proof.
  unfold convert_webp_to_jpg_body, bind, call_ro, call_rw, call_pure,
    logger_info, ret. cbn.
  repeat (case_match; cbn; try done).
Qed.

(** A conversion whose body raises returns [None] and logs the error. *)
Lemma convert_webp_to_jpg_failure image_path jpg_path fs e :
  with_suffix image_path ".jpg" = Ok jpg_path →
  res (convert_webp_to_jpg_body image_path jpg_path fs) = Raise e →
  convert_webp_to_jpg image_path fs
  = mkOut (Ok None) (fs_of (convert_webp_to_jpg_body image_path jpg_path fs))
          (trace (convert_webp_to_jpg_body image_path jpg_path fs)
             ++ [Log ERROR (Error_converting image_path e)]).
Proof.
  intros Hjpg Hres. unfold convert_webp_to_jpg.
  rewrite (bind_Ok _ _ _ jpg_path) by done. cbn.
  unfold try_except. rewrite Hres. done.
Qed.

(** The stage at which the body raised: decoding (opening or converting
    the source) or encoding (saving the JPEG). *)
Lemma convert_body_failure_stage image_path jpg_path fs e :
  res (convert_webp_to_jpg_body image_path jpg_path fs) = Raise e →
  Image_open image_path fs = Raise e
  ∨ (∃ img, Image_open image_path fs = Ok img
            ∧ (Image_convert img "RGB" = Raise e
               ∨ ∃ rgb, Image_convert img "RGB" = Ok rgb
                        ∧ (Image_save rgb jpg_path DEFAULT_OUTPUT_FORMAT
                                      (Some JPEG_QUALITY) fs).2 = Raise e)).
Proof.
  unfold convert_webp_to_jpg_body, bind, call_ro, call_rw, call_pure,
    logger_info, ret. cbn.
  destruct (Image_open image_path fs) as [img|e1] eqn:Hopen; cbn.
  - destruct (Image_convert img "RGB") as [rgb|e2] eqn:Hconv; cbn.
    + destruct (Image_save rgb jpg_path _ _ fs) as [fs' [[]|e3]] eqn:Hsave;
        cbn; [done|].
      intros [= <-]. right. exists img. split; [done|]. right.
      exists rgb. split; [done|]. by rewrite Hsave.
    + intros [= <-]. right. exists img. eauto.
  - intros [= <-]. by left.
Qed.

(** Where a conversion that fails has got to, and what it then leaves:
    a failure to open or to convert has saved nothing and leaves the file
    system as it was; after a failure to save, the file system is the one
    the failed [save] left. *)
Lemma convert_body_failure_leaves image_path jpg_path fs e :
  res (convert_webp_to_jpg_body image_path jpg_path fs) = Raise e →
  (Image_open image_path fs = Raise e
   ∨ ∃ img, Image_open image_path fs = Ok img
            ∧ Image_convert img "RGB" = Raise e)
  ∧ fs_of (convert_webp_to_jpg_body image_path jpg_path fs) = fs
  ∧ omap saved (trace (convert_webp_to_jpg_body image_path jpg_path fs)) = []
  ∨ ∃ img rgb,
      Image_open image_path fs = Ok img
      ∧ Image_convert img "RGB" = Ok rgb
      ∧ Image_save rgb jpg_path DEFAULT_OUTPUT_FORMAT (Some JPEG_QUALITY) fs
        = (fs_of (convert_webp_to_jpg_body image_path jpg_path fs), Raise e)
      ∧ omap saved (trace (convert_webp_to_jpg_body image_path jpg_path fs))
        = [jpg_path].
Proof.
  unfold convert_webp_to_jpg_body, bind, call_ro, call_rw, call_pure,
    logger_info, ret. cbn.
  destruct (Image_open image_path fs) as [img|e1] eqn:Hopen; cbn.
  - destruct (Image_convert img "RGB") as [rgb|e2] eqn:Hconv; cbn.
    + destruct (Image_save rgb jpg_path _ _ fs) as [fs' [[]|e3]] eqn:Hsave;
        cbn; [done|].
      intros [= <-]. right. exists img, rgb. by rewrite Hsave.
    + intros [= <-]. left. split_and!; [|done..]. right. by exists img.
  - intros [= <-]. left. split_and!; [|done..]. by left.
Qed.

End Conversion.

(** C7, as the code has it: when the source cannot be decoded or
    re-encoded (opening it, converting it to RGB or saving the JPEG
    raises), [convert_webp_to_jpg] returns [None] and logs exactly one
    line, the error.  After a failure to decode nothing was saved and the
    file system is as it was.  After a failure to encode the function
    cleans nothing up: the file system is the one the failed [save] left,
    whatever that did to the output path. *)
Theorem convert_failure_returns_none `{E : Externals} (image_path jpg_path : Path)
    (fs : FS Content) (e : exn) :
  with_suffix image_path ".jpg" = Ok jpg_path →
  res (convert_webp_to_jpg_body image_path jpg_path fs) = Raise e →
  convert_webp_to_jpg image_path fs
  = mkOut (Ok None) (fs_of (convert_webp_to_jpg_body image_path jpg_path fs))
          (trace (convert_webp_to_jpg_body image_path jpg_path fs)
             ++ [Log ERROR (Error_converting image_path e)])
  ∧ omap log_line (trace (convert_webp_to_jpg image_path fs))
    = [(ERROR, Error_converting image_path e)]
  ∧ ((Image_open image_path fs = Raise e
      ∨ ∃ img, Image_open image_path fs = Ok img
               ∧ Image_convert img "RGB" = Raise e)
     ∧ fs_of (convert_webp_to_jpg image_path fs) = fs
     ∧ omap saved (trace (convert_webp_to_jpg image_path fs)) = []
     ∨ ∃ img rgb,
         Image_open image_path fs = Ok img
         ∧ Image_convert img "RGB" = Ok rgb
         ∧ Image_save rgb jpg_path DEFAULT_OUTPUT_FORMAT (Some JPEG_QUALITY) fs
           = (fs_of (convert_webp_to_jpg image_path fs), Raise e)
         ∧ omap saved (trace (convert_webp_to_jpg image_path fs)) = [jpg_path]).
Proof.
  intros Hjpg Hres.
  rewrite (convert_webp_to_jpg_failure _ jpg_path _ e) by done.
  split_and!; [done|..].
  - cbn. rewrite omap_app.
    destruct (convert_body_events image_path jpg_path fs) as (-> & _ & _).
    by rewrite Hres.
  - cbn [fs_of trace]. rewrite omap_app. cbn. rewrite app_nil_r.
    exact (convert_body_failure_leaves image_path jpg_path fs e Hres).
Qed.

Lemma convert_failure_returns_none_witness :
  res (convert_webp_to_jpg (E := Toy.lib_no_jpeg) (Toy.photo "a.webp")
         Toy.fs_sibling) = Ok None.
Proof.
  destruct (convert_failure_returns_none (E := Toy.lib_no_jpeg)
              (Toy.photo "a.webp") (Toy.photo "a.jpg") Toy.fs_sibling
              (mkExn OSError "encoder jpeg not available")) as (-> & _ & _).
  - vm_compute. reflexivity.
  - vm_compute. reflexivity.
  - reflexivity.
Defined.

(** C7 as stated fails: where the encoder fails after opening its target,
    a [.jpg] that was beside the source is left empty; the function
    returns [None] and logs the error, and removes or restores nothing. *)
Lemma failed_encoding_leaves_empty_file :
  res (convert_webp_to_jpg (E := Toy.lib_no_jpeg) (Toy.photo "a.webp")
         Toy.fs_sibling) = Ok None
  ∧ omap log_line
      (trace (convert_webp_to_jpg (E := Toy.lib_no_jpeg) (Toy.photo "a.webp")
                Toy.fs_sibling))
    = [(ERROR, Error_converting (Toy.photo "a.webp")
                 (mkExn OSError "encoder jpeg not available"))]
  ∧ match Toy.fs_sibling !! Toy.photo "a.jpg" with
    | Some (File c) => Toy.pixels c
    | _ => None
    end = Some (640, 480)%Z
  ∧ path_exists
      (fs_of (convert_webp_to_jpg (E := Toy.lib_no_jpeg) (Toy.photo "a.webp")
                Toy.fs_sibling))
      (Toy.photo "a.jpg") = true
  ∧ match fs_of (convert_webp_to_jpg (E := Toy.lib_no_jpeg) (Toy.photo "a.webp")
                   Toy.fs_sibling) !! Toy.photo "a.jpg" with
    | Some (File c) => Toy.pixels c
    | _ => None
    end = None.
Proof. repeat split; vm_compute; reflexivity. Qed.

(** ** The image loop of the driver *)

Section ImageLoop.
Context `{E : Externals}.
Implicit Types (fs : FS Content) (p : Path).

Lemma suffix_name p : suffix p ≠ "" → name p ≠ "".
Proof. unfold suffix. intros Hs Hn. by rewrite Hn in Hs. Qed.




(** The name [with_suffix] gives a destination. *)
Lemma with_suffix_jpg p :
  wf_path p = true → name p ≠ "" →
  ∃ q, with_suffix p ".jpg" = Ok q ∧ wf_path q = true ∧ name q ≠ "".
Proof.
  intros Hwf Hname. pose proof (wf_path_name p Hwf) as Hsep.
  rewrite <-stem_suffix, StrFacts.contains_app in Hsep.
  apply orb_false_iff in Hsep as [Hstem _].
  exists (mkPath (root p) (removelast (parts p) ++ [stem p +:+ ".jpg"])).
  assert (stem p +:+ ".jpg" ≠ "" ∧ stem p +:+ ".jpg" ≠ ".") as [Hne Hnd].
  { split; intros Heq; apply (f_equal String.length) in Heq;
      rewrite StrFacts.app_length in Heq; simpl in Heq; lia. }
  split_and!.
  - unfold with_suffix. cbn [valid_suffix]. by rewrite bool_decide_eq_false_2.
  - unfold wf_path in *. cbn [parts]. rewrite forallb_app.
    apply andb_true_iff. split.
    + apply forallb_forall. intros c Hc.
      rewrite forallb_forall in Hwf. apply Hwf.
      destruct (parts p) as [|c0 l] eqn:Hparts; [done|].
      destruct (exists_last (l := c0 :: l) ltac:(done)) as (l' & x & Heq).
      rewrite Heq, removelast_last in Hc. rewrite Heq.
      apply in_or_app. by left.
    + cbn. unfold wf_part, keep_part.
      rewrite !bool_decide_eq_false_2, StrFacts.contains_app, Hstem by done.
      done.
  - by rewrite name_snoc.
Qed.

(** A conversion whose body returns gives the sibling [.jpg] path. *)
Lemma convert_webp_to_jpg_success image_path jpg_path fs r :
  with_suffix image_path ".jpg" = Ok jpg_path →
  res (convert_webp_to_jpg_body image_path jpg_path fs) = Ok r →
  r = Some jpg_path
  ∧ convert_webp_to_jpg image_path fs
    = convert_webp_to_jpg_body image_path jpg_path fs.
Proof.
  intros Hjpg Hres. split.
  - revert Hres.
    unfold convert_webp_to_jpg_body, bind, call_ro, call_rw, call_pure,
      logger_info, ret. cbn.
    repeat (case_match; cbn; try done). by intros [= <-].
  - unfold convert_webp_to_jpg.
    erewrite (bind_eq (lift _)) by by rewrite Hjpg.
    rewrite prepend_nil. unfold try_except. by rewrite Hres.
Qed.

(** A source that exists and is no [.webp] is copied to a fresh
    destination in the output folder and stamped there; a copy that raises
    ends the entry. *)
Lemma process_image_copied entry (caption : pyval) (t : datetime) image_path fs :
  wf_path image_path = true → name image_path ≠ "" →
  path_exists fs image_path = true →
  suffix image_path ≠ ".webp" →
  dict_get entry "caption" = Ok caption →
  ∃ new_path,
    get_unique_filename (truediv OUTPUT_FOLDER (name image_path)) fs
    = mkOut (Ok new_path) fs []
    ∧ path_exists fs new_path = false
    ∧ process_image entry t image_path fs
      = match (shutil_copy2 image_path new_path fs).2 with
        | Ok _ =>
            prepend [CCopy2 image_path new_path (Ok tt)]
              (update_metadata new_path t caption PNone
                 (shutil_copy2 image_path new_path fs).1)
        | Raise e =>
            mkOut (Raise e) (shutil_copy2 image_path new_path fs).1
                  [CCopy2 image_path new_path (Raise e)]
        end.
Proof.
  intros Hwf Hname Hexists Hsuffix Hcaption.
  destruct (output_path_wf image_path Hwf Hname) as [Hout Hout_name].
  destruct (get_unique_filename_total fs _ Hout ltac:(by rewrite Hout_name))
    as (new_path & Hunique & Hfree & _).
  exists new_path. split_and!; [done..|].
  unfold process_image.
  rewrite (bind_eq _ _ fs fs fs []) by done.
  rewrite prepend_nil, Hexists. cbn [negb].
  rewrite (bind_eq _ _ fs new_path fs []) by done.
  rewrite prepend_nil, bool_decide_eq_false_2 by done.
  destruct (shutil_copy2 image_path new_path fs) as [fs' [[]|e]] eqn:Hcopy; cbn.
  - erewrite (bind_eq (bind _ _)).
    2:{ erewrite bind_eq by (unfold call_rw; by rewrite Hcopy).
        unfold prepend, ret. cbn. reflexivity. }
    rewrite Hcaption. erewrite (bind_eq (lift _)) by done.
    by rewrite prepend_nil.
  - erewrite bind_raise_eq; [done|].
    erewrite bind_raise_eq; [done|]. unfold call_rw. by rewrite Hcopy.
Qed.

(** A [.webp] source that converts is moved, as [.jpg], to a fresh
    destination in the output folder and stamped there. *)
Lemma process_image_converted entry (caption : pyval) (t : datetime)
    image_path jpg_path fs r :
  wf_path image_path = true →
  path_exists fs image_path = true →
  suffix image_path = ".webp" →
  with_suffix image_path ".jpg" = Ok jpg_path →
  res (convert_webp_to_jpg_body image_path jpg_path fs) = Ok r →
  dict_get entry "caption" = Ok caption →
  ∃ new_path,
    path_exists (fs_of (convert_webp_to_jpg_body image_path jpg_path fs))
                new_path = false
    ∧ process_image entry t image_path fs
      = prepend (trace (convert_webp_to_jpg_body image_path jpg_path fs))
          (let moving :=
             shutil_move jpg_path new_path
               (fs_of (convert_webp_to_jpg_body image_path jpg_path fs)) in
           match moving.2 with
           | Ok _ =>
               prepend [CMove jpg_path new_path (Ok tt)]
                 (update_metadata new_path t caption PNone moving.1)
           | Raise e =>
               mkOut (Raise e) moving.1 [CMove jpg_path new_path (Raise e)]
           end).
Proof.
  intros Hwf Hexists Hsuffix Hjpg Hres Hcaption.
  assert (name image_path ≠ "") as Hname
    by (apply suffix_name; by rewrite Hsuffix).
  destruct (output_path_wf image_path Hwf Hname) as [Hout Hout_name].
  destruct (get_unique_filename_total fs _ Hout ltac:(by rewrite Hout_name))
    as (first_path & Hunique & _ & Hwf1 & Hname1).
  destruct (with_suffix_jpg first_path Hwf1 Hname1) as (jpg & Hjpg1 & Hwf2 & Hname2).
  destruct (get_unique_filename_total
              (fs_of (convert_webp_to_jpg_body image_path jpg_path fs))
              jpg Hwf2 Hname2) as (new_path & Hunique2 & Hfree & _).
  destruct (convert_webp_to_jpg_success _ _ _ _ Hjpg Hres) as [-> Hconv].
  exists new_path. split; [done|].
  unfold process_image.
  rewrite (bind_eq _ _ fs fs fs []) by done.
  rewrite prepend_nil, Hexists. cbn [negb].
  rewrite (bind_eq _ _ fs first_path fs []) by done.
  rewrite prepend_nil, Hsuffix, bool_decide_eq_true_2 by done.
  set (oc := convert_webp_to_jpg_body image_path jpg_path fs) in *.
  destruct (shutil_move jpg_path new_path (fs_of oc)) as [fs' [[]|e]] eqn:Hmove;
    cbn.
  - erewrite (bind_eq (bind _ _)).
    2:{ erewrite bind_eq
          by (rewrite Hconv, <-Hres; symmetry; apply outcome_eta).
        rewrite Hjpg1. erewrite (bind_eq (lift _)) by done.
        rewrite prepend_nil.
        erewrite (bind_eq (get_unique_filename _)) by exact Hunique2.
        rewrite prepend_nil.
        erewrite bind_eq by (unfold call_rw; by rewrite Hmove).
        unfold prepend, ret. cbn. reflexivity. }
    rewrite Hcaption. erewrite (bind_eq (lift _)) by done.
    rewrite prepend_nil. unfold prepend. cbn. by rewrite <-app_assoc.
  - erewrite bind_raise_eq; [done|].
    erewrite bind_eq by (rewrite Hconv, <-Hres; symmetry; apply outcome_eta).
    rewrite Hjpg1. erewrite (bind_eq (lift _)) by done.
    rewrite prepend_nil.
    erewrite (bind_eq (get_unique_filename _)) by exact Hunique2.
    rewrite prepend_nil.
    erewrite bind_raise_eq by (unfold call_rw; by rewrite Hmove).
    unfold prepend. cbn. done.
Qed.

End ImageLoop.

(** ** An entry, step by step *)

Section EntrySteps.
Context `{E : Externals}.
Implicit Types (fs : FS Content) (p : Path).




End EntrySteps.



(** ** The composite *)

(** C4, for two readable images on which Pillow's steps succeed:
    [combine_images] makes exactly these calls, in this order: the
    secondary resized to (width // 3, height // 3) of the primary with the
    Lanczos filter; a new mask of the resized size; a rounded rectangle of
    radius 30 drawn on it over that size; the mask put as alpha channel;
    the result pasted on the primary at (50, 50) with itself as mask; the
    primary saved as JPEG.  With operations that keep sizes, the mask and
    the masked secondary have the resized size and the saved image reads
    back with the size of the primary. *)
Theorem combine_images_composes `{E : Externals} (primary secondary output : Path)
    (fs fs' : FS Content) (P S : Image) (c : composition) :
  pillow_sizes →
  Image_open primary fs = Ok P →
  Image_open secondary fs = Ok S →
  composes P S c →
  Image_save (pasted c) output DEFAULT_OUTPUT_FORMAT None fs = (fs', Ok tt) →
  combine_images primary secondary output fs
  = mkOut (Ok tt) fs'
      [CImageOpen primary (Ok P);
       CImageOpen secondary (Ok S);
       CResize S ((width P / 3)%Z, (height P / 3)%Z) LANCZOS (Ok (resized c));
       CNew "L" (size_of (resized c)) 0 (Ok (blank c));
       CRoundedRectangle (blank c)
         [0; 0; width (resized c); height (resized c)]%Z 30 255 (Ok (mask c));
       CPutalpha (resized c) (mask c) (Ok (masked c));
       CPaste P (masked c) (50, 50)%Z (masked c) (Ok (pasted c));
       CSave (pasted c) output "JPEG" None (Ok tt)]
  ∧ size_of (resized c) = ((width P / 3)%Z, (height P / 3)%Z)
  ∧ size_of (mask c) = size_of (resized c)
  ∧ size_of (masked c) = size_of (resized c)
  ∧ ∃ img, Image_open output fs' = Ok img ∧ size_of img = size_of P.
Proof.
  intros Hsizes HP HS (Hresize & Hnew & Hround & Halpha & Hpaste) Hsave.
  split_and!.
  - unfold combine_images.
    erewrite bind_eq by (unfold call_ro; by rewrite HP).
    erewrite bind_eq by (unfold call_ro; by rewrite HS).
    erewrite bind_eq by (unfold call_pure; by rewrite Hresize).
    erewrite bind_eq by (unfold call_pure; by rewrite Hnew).
    erewrite bind_eq by (unfold call_pure; by rewrite Hround).
    erewrite bind_eq by (unfold call_pure; by rewrite Halpha).
    erewrite bind_eq by (unfold call_pure; by rewrite Hpaste).
    unfold call_rw, prepend. rewrite Hsave. done.
  - by eapply resize_size.
  - erewrite rounded_rectangle_size by done. by eapply new_size.
  - by eapply putalpha_size.
  - destruct (save_size Hsizes _ _ _ _ _ _ Hsave) as (img & Hopen & Himg).
    exists img. split; [done|]. rewrite Himg. by eapply paste_size.
Qed.

Lemma combine_images_composes_witness :
  res (combine_images (E := Toy.lib) (Toy.photo "a.webp") (Toy.photo "b.jpg")
         (Toy.photo "out.jpg") Toy.fs0) = Ok tt.
Proof.
  destruct (combine_images_composes (E := Toy.lib)
              (Toy.photo "a.webp") (Toy.photo "b.jpg") (Toy.photo "out.jpg")
              Toy.fs0
              (<[Toy.photo "out.jpg" := File (Toy.image_file (1500, 2000)%Z)]>
                 Toy.fs0)
              (1500, 2000)%Z (600, 800)%Z
              (mkComposition (E := Toy.lib) (500, 666)%Z (500, 666)%Z
                 (500, 666)%Z (500, 666)%Z (1500, 2000)%Z)
              toy_pillow_sizes) as (-> & _).
  - vm_compute. reflexivity.
  - vm_compute. reflexivity.
  - repeat split.
  - reflexivity.
  - reflexivity.
Defined.

(** C4 as stated fails: two readable images need not compose.  A third
    of a primary of two pixels by two is nothing, the resize raises, and no
    image is saved. *)
Lemma combine_images_tiny_primary_raises :
  is_Ok (Image_open (Externals := Toy.lib) (Toy.photo "tiny.jpg") Toy.fs_tiny)
  = true
  ∧ is_Ok (Image_open (Externals := Toy.lib) (Toy.photo "b.jpg") Toy.fs_tiny)
    = true
  ∧ res (combine_images (E := Toy.lib) (Toy.photo "tiny.jpg") (Toy.photo "b.jpg")
           (Toy.photo "out.jpg") Toy.fs_tiny)
    = Raise (mkExn ValueError "height and width must be > 0")
  ∧ omap saved
      (trace (combine_images (E := Toy.lib) (Toy.photo "tiny.jpg")
                (Toy.photo "b.jpg") (Toy.photo "out.jpg") Toy.fs_tiny)) = []
  ∧ path_exists
      (fs_of (combine_images (E := Toy.lib) (Toy.photo "tiny.jpg")
                (Toy.photo "b.jpg") (Toy.photo "out.jpg") Toy.fs_tiny))
      (Toy.photo "out.jpg") = false.
Proof. repeat split; vm_compute; reflexivity. Qed.

(** ** Reading capture metadata back *)

(** C6, as the code has it.  When the capture container of the file loads,
    dumps and inserts, and the library reads the capture time and the GPS
    directory back as they were inserted and the caption write leaves that
    container alone: after [update_metadata] the container read back holds
    the timestamp formatted [%Y:%m:%d %H:%M:%S] and, for a location with
    latitude and longitude, exactly these two GPS fields; without a
    location it holds the GPS directory the file had before the call,
    unchanged. *)
Theorem capture_metadata_round_trip `{E : Externals} (p : Path) (t : datetime)
    (caption location la lo : pyval) (fs fs1 : FS Content)
    (d0 : exif_dict) (b : ExifBytes) :
  exif_read_back → caption_keeps_capture →
  piexif_load p fs = Ok d0 →
  (truthy location = true →
   getitem location "latitude" = Ok la ∧ getitem location "longitude" = Ok lo) →
  piexif_dump
    (set_GPS (set_Exif d0 DateTimeOriginal
                       (PStr (strftime t "%Y:%m:%d %H:%M:%S")))
             (if truthy location
              then <[GPSLongitude := lo]> (<[GPSLatitude := la]> ∅)
              else ifd_GPS d0)) = Ok b →
  piexif_insert b p fs = (fs1, Ok tt) →
  ∃ d,
    piexif_load p (fs_of (update_metadata p t caption location fs)) = Ok d
    ∧ ifd_Exif d !! DateTimeOriginal
      = Some (PStr (strftime t "%Y:%m:%d %H:%M:%S"))
    ∧ ifd_GPS d
      = if truthy location
        then <[GPSLongitude := lo]> (<[GPSLatitude := la]> ∅)
        else ifd_GPS d0.
Proof.
  intros Hround Hkeeps Hload Hloc Hdump Hinsert.
  set (d := set_GPS _ _) in Hdump.
  assert (update_exif p t location fs
          = mkOut (Ok tt) fs1
              [CPiexifLoad p (Ok d0); CPiexifDump d (Ok b);
               CPiexifInsert b p (Ok tt)]) as Hexif.
  { unfold update_exif.
    erewrite bind_eq by (unfold call_ro; by rewrite Hload).
    subst d. destruct (truthy location) eqn:Htruthy.
    - destruct (Hloc eq_refl) as [Hla Hlo]. rewrite Hla, Hlo.
      erewrite (bind_eq (bind _ _)).
      2:{ erewrite (bind_eq (lift _)) by done.
          erewrite (bind_eq (lift _)) by done.
          unfold prepend, ret. cbn. reflexivity. }
      erewrite bind_eq by (unfold call_pure; by rewrite Hdump).
      unfold call_rw, prepend. by rewrite Hinsert.
    - change (set_GPS ?x (ifd_GPS d0)) with x in *.
      erewrite (bind_eq (ret _)) by done.
      erewrite bind_eq by (unfold call_pure; by rewrite Hdump).
      unfold call_rw, prepend. by rewrite Hinsert. }
  destruct (Hround d b p fs fs1 Hdump Hinsert) as (d' & Hback & Htime & Hgps).
  exists d'. split_and!.
  - rewrite update_metadata_eq. cbn. by rewrite Hkeeps, Hexif.
  - rewrite Htime. subst d. cbn. by rewrite lookup_insert_eq.
  - by rewrite Hgps.
Qed.

Lemma capture_metadata_round_trip_witness :
  ∃ d,
    piexif_load (Externals := Toy.lib) (Toy.photo "geo.jpg")
      (fs_of (update_metadata (E := Toy.lib) (Toy.photo "geo.jpg")
                Toy.taken_at (PStr "hello") Toy.somewhere Toy.fs_geotagged))
    = Ok d
    ∧ ifd_Exif d !! DateTimeOriginal = Some (PStr "2023:01:15 10:30:45")
    ∧ ifd_GPS d
      = <[GPSLongitude := PList [PInt 2; PInt 1]]>
          (<[GPSLatitude := PList [PInt 48; PInt 1]]> ∅).
Proof.
  eapply (capture_metadata_round_trip (E := Toy.lib) (Toy.photo "geo.jpg")
            Toy.taken_at (PStr "hello") Toy.somewhere
            (PList [PInt 48; PInt 1]) (PList [PInt 2; PInt 1])
            Toy.fs_geotagged _ (Toy.exif Toy.geotagged_file)
            _ toy_exif_read_back toy_caption_keeps_capture).
  - vm_compute. reflexivity.
  - intros _. split; reflexivity.
  - reflexivity.
  - reflexivity.
Defined.

(** C6 as stated fails: a photo that already carries GPS fields still
    carries them after its capture metadata is written with the location
    omitted. *)
Lemma omitted_location_keeps_gps_fields :
  match piexif_load (Externals := Toy.lib) (Toy.photo "geo.jpg")
          (fs_of (update_metadata (E := Toy.lib) (Toy.photo "geo.jpg")
                    Toy.taken_at PNone PNone Toy.fs_geotagged)) with
  | Ok d => (ifd_Exif d !! DateTimeOriginal, ifd_GPS d !! GPSLatitude,
             ifd_GPS d !! GPSLongitude)
  | Raise _ => (None, None, None)
  end
  = (Some (PStr "2023:01:15 10:30:45"),
     Some (PList [PInt 51; PInt 30; PInt 0]),
     Some (PList [PInt 0; PInt 7; PInt 30])).
Proof. vm_compute. reflexivity. Qed.

(** ** Runs on the model libraries *)

Section Runs.
Import Toy.

(** A batch of three entries: the first is processed in full, the second
    lacks its primary image, the third is no post at all.  Both failures
    are logged, and the backup files that writing captions left are
    removed at the end. *)
Example process_files_log :
  omap log_line (trace (process_files (E := lib) fs0))
  = [(INFO, Converted_to_JPEG (photo "a.webp"));
     (ERROR, Error_processing_entry
               (post "/bereal/gone.jpg" "/bereal/b.jpg" "2023-01-16T08:00:00.000Z")
               FileNotFound);
     (ERROR, Error_processing_entry (PStr "not a post")
               (mkExn TypeError "string indices must be integers, not str"));
     (INFO, Removed_backup_file (output "b.jpg~"));
     (INFO, Removed_backup_file (output "a.jpg~"));
     (INFO, Removed_backup_file (output "b_1.jpg~"));
     (INFO, Removed_backup_file (combined "20230115_103045_combined.jpg~"))].
Proof. vm_compute. reflexivity. Qed.

Example process_files_leaves_no_backup :
  glob_star OUTPUT_FOLDER "~" (fs_of (process_files (E := lib) fs0)) = []
  ∧ glob_star COMBINED_FOLDER "~" (fs_of (process_files (E := lib) fs0)) = []
  ∧ path_exists (fs_of (process_files (E := lib) fs0)) (output "a.jpg") = true
  ∧ path_exists (fs_of (process_files (E := lib) fs0)) (output "b.jpg") = true
  ∧ path_exists (fs_of (process_files (E := lib) fs0)) (output "b_1.jpg") = true
  ∧ path_exists (fs_of (process_files (E := lib) fs0))
      (combined "20230115_103045_combined.jpg") = true.
Proof. repeat split; vm_compute; reflexivity. Qed.

(** The manifest gives every post a location; the stamped copy carries the
    timestamp and the caption, and no GPS field. *)
Example process_files_writes_no_gps :
  match fs_of (process_files (E := lib) fs0) !! output "a.jpg" with
  | Some (File c) =>
      (ifd_Exif (exif c) !! DateTimeOriginal, caption c,
       map_to_list (ifd_GPS (exif c)))
  | _ => (None, None, [])
  end
  = (Some (PStr "2023:01:15 10:30:45"), Some (PStr "hello"), []).
Proof. vm_compute. reflexivity. Qed.

(** A missing manifest: one error line, and nothing else happens. *)
Example process_files_without_manifest :
  res (process_files (E := lib) folders) = Ok tt
  ∧ omap log_line (trace (process_files (E := lib) folders))
    = [(ERROR, JSON_file_not_found)]
  ∧ (map_to_list (fs_of (process_files (E := lib) folders))).*1
    = (map_to_list folders).*1.
Proof. repeat split; vm_compute; reflexivity. Qed.

(** A file that is no image: the capture block fails and is logged, the
    caption block still runs and saves the caption. *)
Example update_metadata_one_block_fails :
  omap error_line
    (trace (update_metadata (E := lib) (photo "bad.webp") taken_at
              (PStr "hello") PNone fs_corrupt))
  = [Failed_to_update_EXIF (photo "bad.webp")
       (mkExn (OtherException "InvalidImageDataError") "")]
  ∧ match fs_of (update_metadata (E := lib) (photo "bad.webp") taken_at
                   (PStr "hello") PNone fs_corrupt) !! photo "bad.webp" with
    | Some (File c) => caption c
    | _ => None
    end = Some (PStr "hello").
Proof. split; vm_compute; reflexivity. Qed.

(** A [.webp] that cannot be decoded: three error lines, the last two about
    a destination that was never created. *)
Example process_image_corrupt_webp :
  omap log_line
    (trace (process_image (E := lib) (post "bad.webp" "b.jpg" "") taken_at
              (photo "bad.webp") fs_corrupt))
  = [(ERROR, Error_converting (photo "bad.webp")
               (mkExn (OtherException "UnidentifiedImageError")
                      "cannot identify image file"));
     (ERROR, Failed_to_update_EXIF (output "bad.webp") FileNotFound);
     (ERROR, Failed_to_update_IPTC (output "bad.webp") FileNotFound)]
  ∧ path_exists
      (fs_of (process_image (E := lib) (post "bad.webp" "b.jpg" "") taken_at
                (photo "bad.webp") fs_corrupt))
      (output "bad.webp") = false.
Proof. split; vm_compute; reflexivity. Qed.

End Runs.

(** * More of the script

    The functions and paths of the script that the properties above leave
    out: the log formatter, the file counter, the purge, and the error and
    edge behaviour of the conversion, the composite, the metadata writer
    and the driver. *)

(** ** Names, extensions and patterns *)

Section SuffixFacts.
Import StrFacts.

Lemma rfind_None (c : ascii) (s : string) :
  Str.rfind c s = None ↔ Str.contains c s = false.
Proof.
  induction s as [|a s IH]; simpl; [done|].
  destruct (Str.rfind c s) as [i|].
  - split; [done|]. intros [_ H]%orb_false_iff. by apply IH in H.
  - rewrite (proj1 IH eq_refl), orb_false_r.
    destruct (decide (a = c)) as [->|Hne].
    + by rewrite bool_decide_eq_true_2.
    + by rewrite bool_decide_eq_false_2.
Qed.

Lemma rfind_app_no (c : ascii) (s t : string) :
  Str.contains c t = false → Str.rfind c (s +:+ t) = Str.rfind c s.
Proof.
  intros Ht. induction s as [|a s IH]; simpl.
  - by apply rfind_None.
  - by rewrite IH.
Qed.

Lemma rfind_app_last (c : ascii) (a t : string) :
  Str.contains c t = false →
  Str.rfind c (a +:+ String c t) = Some (String.length a).
Proof.
  intros Ht. induction a as [|x a IH]; simpl.
  - rewrite (proj2 (rfind_None c t) Ht). by destruct (decide (c = c)).
  - by rewrite IH.
Qed.

Lemma rfind_Some_split (c : ascii) (s : string) (i : nat) :
  Str.rfind c s = Some i →
  ∃ a t, s = a +:+ String c t ∧ String.length a = i ∧ Str.contains c t = false.
Proof.
  revert i. induction s as [|x s IH]; intros i; simpl; [done|].
  destruct (Str.rfind c s) as [j|] eqn:Hj.
  - intros [= <-]. destruct (IH j eq_refl) as (a & t & -> & <- & Ht).
    by exists (String x a), t.
  - destruct (decide (x = c)) as [->|]; [|done].
    intros [= <-]. exists "", s. split_and!; [done..|]. by apply rfind_None.
Qed.

Lemma drop_app_length (a t : string) : Str.drop (String.length a) (a +:+ t) = t.
Proof. induction a as [|x a IH]; simpl; [by destruct t|done]. Qed.

Lemma take_app_length (a t : string) : Str.take (String.length a) (a +:+ t) = a.
Proof. induction a as [|x a IH]; simpl; [by destruct t|by rewrite IH]. Qed.

Lemma ends_with_app (c : ascii) (a : string) (x : ascii) (t : string) :
  Str.ends_with c (a +:+ String x t) = Str.ends_with c (String x t).
Proof.
  induction a as [|y a IH]; [done|].
  change (String y a +:+ String x t) with (String y (a +:+ String x t)).
  rewrite <-IH. by destruct a.
Qed.

(** The name of a path splits at its extension: either there is none, or
    the name is a non-empty stem, a dot, and a non-empty dotless rest. *)
Lemma suffix_index_Some (nm : string) (i : nat) :
  suffix_index nm = Some i →
  ∃ a t, nm = a +:+ String dot t ∧ String.length a = i
         ∧ a ≠ "" ∧ t ≠ "" ∧ Str.contains dot t = false.
Proof.
  unfold suffix_index. destruct (Str.rfind dot nm) as [j|] eqn:Hj; [|done].
  destruct (0 <? j) eqn:H0; [|done]. destruct (j <? String.length nm - 1) eqn:H1; [|done].
  intros [= <-]. destruct (rfind_Some_split _ _ _ Hj) as (a & t & -> & <- & Ht).
  exists a, t. apply Nat.ltb_lt in H0, H1. rewrite app_length in H1. simpl in H1.
  split_and!; try done.
  - intros ->. simpl in H0. lia.
  - intros ->. simpl in H1. lia.
Qed.

Lemma suffix_index_app (a t : string) :
  a ≠ "" → t ≠ "" → Str.contains dot t = false →
  suffix_index (a +:+ String dot t) = Some (String.length a).
Proof.
  intros Ha Ht Hdot. unfold suffix_index. rewrite rfind_app_last by done.
  rewrite app_length. simpl.
  destruct a; [done|]. destruct t; [done|]. simpl.
  case_match eqn:Hlt; [done|]. apply Nat.ltb_ge in Hlt. lia.
Qed.

Lemma suffix_index_None_app (nm t : string) :
  suffix_index nm = None → Str.ends_with dot nm = false →
  Str.contains dot t = false →
  suffix_index (nm +:+ t) = None.
Proof.
  intros Hnone Hend Ht. unfold suffix_index in *.
  rewrite rfind_app_no by done.
  destruct (Str.rfind dot nm) as [j|] eqn:Hj; [|done].
  destruct (0 <? j) eqn:H0; [|done]. simpl in *.
  destruct (j <? String.length nm - 1) eqn:H1; [done|].
  destruct (rfind_Some_split _ _ _ Hj) as (a & r & -> & <- & Hr).
  apply Nat.ltb_ge in H1. rewrite app_length in H1. simpl in H1.
  destruct r; [|simpl in H1; lia].
  rewrite ends_with_app in Hend. by vm_compute in Hend.
Qed.

End SuffixFacts.
Section FormatterFacts.
Import StrFacts.

Lemma str_startswith_spec (lit s : string) :
  str_startswith lit s = true ↔ ∃ b, s = lit +:+ b.
Proof.
  revert s. induction lit as [|a lit IH]; intros s; simpl.
  - split; [intros _; by exists s|done].
  - destruct s as [|b s]; simpl.
    + split; [done|]. by intros [? ?].
    + rewrite andb_true_iff, bool_decide_eq_true, IH. split.
      * intros [-> [t ->]]. by exists t.
      * intros [t Ht]. injection Ht as -> ->. split; [done|by exists t].
Qed.

Lemma str_in_spec (lit s : string) :
  str_in lit s = true ↔ ∃ a b, s = a +:+ lit +:+ b.
Proof.
  induction s as [|c s IH]; simpl.
  - rewrite orb_false_r, str_startswith_spec. split.
    + intros [b Hb]. by exists "", b.
    + intros [a [b Hab]]. destruct a; [by exists b|done].
  - rewrite orb_true_iff, str_startswith_spec, IH. split.
    + intros [[b Hb]|[a [b Hab]]].
      * by exists "", b.
      * exists (String c a), b. simpl. by rewrite Hab.
    + intros [a [b Hab]]. destruct a as [|a0 a]; simpl in Hab.
      * left. by exists b.
      * right. injection Hab as -> ->. by exists a, b.
Qed.

End FormatterFacts.

(** X1: [ColorFormatter.format] puts the text of the base formatter,
    unchanged, between a colour code and the reset code.  A record whose
    [msg] contains "Finished processing" anywhere is blue and bold whatever
    its level; any other record is green at level INFO (20), red at level
    ERROR (40) and has no colour code at any other level. *)
Theorem ColorFormatter_format_colors (super_format : LogRecord → string)
    (record : LogRecord) :
  (∀ a b, msg record = a +:+ "Finished processing" +:+ b →
     ColorFormatter_format super_format record
     = STYLING_BLUE +:+ STYLING_BOLD +:+ super_format record +:+ STYLING_RESET)
  ∧ ((∀ a b, msg record ≠ a +:+ "Finished processing" +:+ b) →
     ColorFormatter_format super_format record
     = (if decide (levelno record = 20%Z) then STYLING_GREEN
        else if decide (levelno record = 40%Z) then STYLING_RED
        else "")
       +:+ super_format record +:+ STYLING_RESET).
Proof.
  unfold ColorFormatter_format. split.
  - intros a b Hmsg.
    assert (str_in "Finished processing" (msg record) = true) as ->
      by (apply str_in_spec; eauto).
    reflexivity.
  - intros Hno.
    destruct (str_in "Finished processing" (msg record)) eqn:Hin.
    + apply str_in_spec in Hin as (a & b & Hmsg). by destruct (Hno a b).
    + unfold level_color, logging_INFO, logging_ERROR.
      repeat case_decide; repeat case_match; try done; lia.
Qed.

Section UniqueNames.
Context `{E : Externals}.
Import StrFacts.
Implicit Types (fs : FS Content) (p : Path).

Lemma str_app_assoc (a b c : string) : (a +:+ b) +:+ c = a +:+ (b +:+ c).
Proof. induction a as [|x a IH]; [done|]. by rewrite !app_cons, IH. Qed.

Lemma str_app_nil_r (a : string) : a +:+ "" = a.
Proof. induction a as [|x a IH]; [done|]. by rewrite !app_cons, IH. Qed.

Lemma string_of_uint_no_dot (d : Decimal.uint) :
  Str.contains dot (NilEmpty.string_of_uint d) = false.
Proof. induction d; simpl; done. Qed.

(** Numbering a name keeps its extension, unless the name ends in a dot. *)
Lemma numbered_suffix_index (nm : string) (k : nat) :
  Str.ends_with dot nm = false →
  match suffix_index nm with
  | Some i =>
      suffix_index (Str.take i nm +:+ "_" +:+ Str.decimal k +:+ Str.drop i nm)
      = Some (String.length (Str.take i nm +:+ "_" +:+ Str.decimal k))
  | None => suffix_index (nm +:+ "_" +:+ Str.decimal k +:+ "") = None
  end.
Proof.
  intros Hend. destruct (suffix_index nm) as [i|] eqn:Hi.
  - destruct (suffix_index_Some nm i Hi) as (a & t & -> & <- & Ha & Ht & Hdot).
    rewrite take_app_length, drop_app_length.
    assert (a +:+ "_" +:+ Str.decimal k +:+ String dot t
            = (a +:+ "_" +:+ Str.decimal k) +:+ String dot t) as ->
      by by rewrite !str_app_assoc.
    apply suffix_index_app; [|done..].
    by destruct a.
  - rewrite str_app_nil_r. apply suffix_index_None_app; [done..|].
    simpl. apply string_of_uint_no_dot.
Qed.

Lemma numbered_path_suffix p (k : nat) :
  Str.ends_with dot (name p) = false →
  suffix (numbered_path p k) = suffix p
  ∧ stem (numbered_path p k) = stem p +:+ "_" +:+ Str.decimal k.
Proof.
  intros Hend. pose proof (numbered_suffix_index (name p) k Hend) as Hidx.
  unfold suffix, stem. rewrite numbered_path_name. unfold numbered, suffix, stem.
  destruct (suffix_index (name p)) as [i|] eqn:Hi.
  - rewrite Hidx.
    assert (Str.take i (name p) +:+ "_" +:+ Str.decimal k +:+ Str.drop i (name p)
            = (Str.take i (name p) +:+ "_" +:+ Str.decimal k)
                +:+ Str.drop i (name p)) as ->
      by by rewrite !str_app_assoc.
    by rewrite drop_app_length, take_app_length.
  - rewrite Hidx. by rewrite !str_app_nil_r.
Qed.

(** What [get_unique_filename] returns: the path itself or a numbered one. *)
Lemma get_unique_filename_shape fs p :
  wf_path p = true → name p ≠ "" →
  ∃ q, get_unique_filename p fs = mkOut (Ok q) fs []
       ∧ path_exists fs q = false
       ∧ (q = p ∨ ∃ k, q = numbered_path p k).
Proof.
  intros Hwf Hname. pose proof (wf_path_name p Hwf) as Hsep.
  destruct (first_missing_probe fs p Hname) as (n & Hn & Hlow & Hmiss).
  exists (probe p p 1 n). split_and!; [|done|].
  - unfold get_unique_filename, get_unique_filename_on.
    rewrite (loop_first_missing _ fs p p 1 n) by
      (try done; unfold get_unique_filename_fuel; lia).
    done.
  - destruct n; [by left|right; by eexists].
Qed.

Lemma numbered_path_parent p (k : nat) : parent (numbered_path p k) = parent p.
Proof. unfold parent, numbered_path. simpl. by rewrite removelast_last. Qed.

End UniqueNames.

(** X2: for a well-formed path with a file name that does not end in a
    dot, [get_unique_filename] returns a path of the same folder with the
    same extension, and the result is stable: asked for a unique name of
    its own result, it returns that result unchanged. *)
Theorem get_unique_filename_keeps_extension `{E : Externals} (fs : FS Content)
    (p : Path) :
  wf_path p = true → name p ≠ "" → Str.ends_with dot (name p) = false →
  ∃ q, get_unique_filename p fs = mkOut (Ok q) fs []
       ∧ suffix q = suffix p
       ∧ parent q = parent p
       ∧ get_unique_filename q fs = mkOut (Ok q) fs [].
Proof.
  intros Hwf Hname Hend.
  destruct (get_unique_filename_shape fs p Hwf Hname) as (q & Hrun & Hfree & Hq).
  exists q. split; [done|].
  assert (get_unique_filename q fs = mkOut (Ok q) fs []) as Hagain.
  { unfold get_unique_filename, get_unique_filename_on, get_unique_filename_fuel.
    simpl. by rewrite Hfree. }
  destruct Hq as [->|[k ->]]; [done|].
  split_and!; [by apply numbered_path_suffix|apply numbered_path_parent|done].
Qed.

Lemma get_unique_filename_keeps_extension_witness :
  ∃ q, res (get_unique_filename (E := Toy.lib) (Toy.photo "b.jpg") Toy.fs_taken)
       = Ok q ∧ suffix q = ".jpg".
Proof.
  destruct (get_unique_filename_keeps_extension (E := Toy.lib) Toy.fs_taken
              (Toy.photo "b.jpg")) as (q & Hrun & Hsuffix & _).
  - vm_compute. reflexivity.
  - vm_compute. intros H. discriminate H.
  - vm_compute. reflexivity.
  - exists q. rewrite Hrun. split; [reflexivity|exact Hsuffix].
Defined.

(** A name that ends in a dot does not keep its (empty) extension. *)
Example get_unique_filename_trailing_dot :
  suffix (Toy.photo "a.") = ""
  ∧ suffix (numbered_path (Toy.photo "a.") 1) = "._1".
Proof. split; vm_compute; reflexivity. Qed.

Section CountFiles.
Import StrFacts.

Lemma ends_with_str_spec (lit s : string) :
  ends_with_str lit s = true ↔ ∃ a, s = a +:+ lit.
Proof.
  induction s as [|c s IH]; simpl.
  - rewrite orb_false_r, bool_decide_eq_true. split.
    + intros <-. by exists "".
    + intros [a Ha]. by destruct a, lit.
  - rewrite orb_true_iff, bool_decide_eq_true, IH. split.
    + intros [<-|[a ->]]; [by exists ""|by exists (String c a)].
    + intros [a Ha]. destruct a as [|x a].
      * left. done.
      * right. rewrite app_cons in Ha. injection Ha as -> ->. by exists a.
Qed.

(** A name ends in [.webp] exactly when [pathlib] gives it the suffix
    [.webp], or when it is [.webp] itself, which has no suffix. *)
Lemma ends_with_webp (p : Path) :
  ends_with_str ".webp" (name p) = true
  ↔ suffix p = ".webp" ∨ name p = ".webp".
Proof.
  rewrite ends_with_str_spec. split.
  - intros [a Ha]. destruct (decide (a = "")) as [->|Hne]; [by right|left].
    unfold suffix. rewrite Ha.
    change (a +:+ ".webp") with (a +:+ String dot "webp").
    rewrite (suffix_index_app a "webp") by done.
    apply drop_app_length.
  - intros [Hs|Hn]; [|by exists ""].
    unfold suffix in Hs. destruct (suffix_index (name p)) as [i|]; [|done].
    exists (Str.take i (name p)). by rewrite <-Hs, take_drop.
Qed.

End CountFiles.

(** X3: with its default pattern, [count_files] counts the direct entries
    of the folder that the driver would convert (those with suffix
    [.webp]) and, besides them, only an entry named [.webp] itself, to
    which [pathlib] gives no suffix. *)
Theorem count_files_counts_webp_sources {Content} (folder : Path)
    (fs : FS Content) :
  count_files folder ".webp" fs
  = length (filter (λ p, in_dir folder p = true
                         ∧ (suffix p = ".webp" ∨ name p = ".webp"))
                   (map_to_list fs).*1).
Proof.
  unfold count_files, glob_star. f_equal. apply list_filter_iff. intros p.
  rewrite andb_true_iff. by rewrite ends_with_webp.
Qed.

(** X4: creating a file that did not exist raises the count by one when
    the file is a direct entry of the folder and its name ends in the
    literal of the pattern, and leaves the count as it was otherwise, so
    files of sub-folders are not counted. *)
Theorem count_files_insert {Content} (folder : Path) (lit : string)
    (fs : FS Content) (p : Path) (f : file Content) :
  fs !! p = None →
  count_files folder lit (<[p := f]> fs)
  = count_files folder lit fs
    + (if in_dir folder p && ends_with_str lit (name p) then 1 else 0).
Proof.
  intros Hnew. unfold count_files, glob_star.
  rewrite (map_to_list_insert fs p f Hnew). rewrite fmap_cons, filter_cons. simpl.
  destruct (in_dir folder p && ends_with_str lit (name p)) eqn:Hm.
  - rewrite decide_True by done. simpl. lia.
  - rewrite decide_False by done. lia.
Qed.

Lemma count_files_insert_witness :
  count_files PHOTO_FOLDER ".webp"
    (<[Toy.photo "c.webp" := File (Toy.image_file (10, 10)%Z)]> Toy.fs0)
  = count_files PHOTO_FOLDER ".webp" Toy.fs0 + 1.
Proof.
  rewrite (count_files_insert PHOTO_FOLDER ".webp" Toy.fs0 (Toy.photo "c.webp")).
  - reflexivity.
  - vm_compute. reflexivity.
Defined.

(** ** The purge *)

Section Purge.
Context `{E : Externals}.
Implicit Types (fs : FS Content) (p : Path).

Lemma for_each_cons {A} (x : A) (l : list A) (body : A → M unit) fs :
  res (body x fs) = Ok tt →
  for_each (x :: l) body fs
  = prepend (trace (body x fs)) (for_each l body (fs_of (body x fs))).
Proof. intros Hx. simpl. unfold bind. by rewrite Hx. Qed.

Lemma remove_backup_file_ok p fs : res (remove_backup_file p fs) = Ok tt.
Proof. by rewrite remove_backup_file_eq. Qed.

(** One file of the purge: one call, one log line. *)
Lemma remove_backup_file_events p fs :
  filter (λ ev, is_call ev = true) (trace (remove_backup_file p fs))
  = [CUnlink p (unlink p fs).2]
  ∧ length (omap log_line (trace (remove_backup_file p fs))) = 1
  ∧ omap error_line (trace (remove_backup_file p fs))
    = match (unlink p fs).2 with
      | Ok _ => []
      | Raise e => [Error_removing p e]
      end
  ∧ fs_of (remove_backup_file p fs) = (unlink p fs).1.
Proof.
  rewrite remove_backup_file_eq. unfold call_rw. cbn.
  by destruct ((unlink p fs).2).
Qed.

Lemma for_each_remove_backup_file_events (l : list Path) fs :
  length (filter (λ ev, is_call ev = true)
            (trace (for_each l remove_backup_file fs))) = length l
  ∧ length (omap log_line (trace (for_each l remove_backup_file fs))) = length l.
Proof.
  revert fs. induction l as [|p l IH]; intros fs; [done|].
  rewrite for_each_cons by apply remove_backup_file_ok.
  unfold prepend. cbn [trace]. rewrite filter_app, omap_app, !length_app.
  destruct (remove_backup_file_events p fs) as (-> & -> & _).
  destruct (IH (fs_of (remove_backup_file p fs))) as [-> ->]. done.
Qed.

(** With a lawful [unlink], the purge only ever removes files of its
    list, and removes all of them when no removal is reported failed. *)
Lemma for_each_remove_backup_file_fs (l : list Path) fs :
  unlink_lawful →
  (∀ q, fs_of (for_each l remove_backup_file fs) !! q = fs !! q
        ∨ (q ∈ l ∧ fs_of (for_each l remove_backup_file fs) !! q = None))
  ∧ (omap error_line (trace (for_each l remove_backup_file fs)) = [] →
     ∀ q, q ∈ l → fs_of (for_each l remove_backup_file fs) !! q = None).
Proof.
  intros Hlaw. revert fs. induction l as [|p l IH]; intros fs.
  - split; [by left|]. intros _ q Hq. by apply elem_of_nil in Hq.
  - rewrite for_each_cons by apply remove_backup_file_ok.
    unfold prepend. cbn [fs_of trace].
    destruct (remove_backup_file_events p fs) as (_ & _ & Herr & Hfs).
    destruct (IH (fs_of (remove_backup_file p fs))) as [Hkeep Hgone].
    rewrite Hfs in *. specialize (Hlaw p fs).
    assert (∀ q, fs_of (for_each l remove_backup_file (unlink p fs).1) !! q
                 = fs !! q
               ∨ q ∈ p :: l
                 ∧ fs_of (for_each l remove_backup_file (unlink p fs).1) !! q
                   = None) as Hall.
    { intros q. destruct (Hkeep q) as [Hq|[Hq Hnone]].
      - rewrite Hq, Hlaw. destruct ((unlink p fs).2); [|by left].
        destruct (decide (q = p)) as [->|Hne].
        + right. split; [by left|]. apply lookup_delete_eq.
        + left. by rewrite lookup_delete_ne.
      - right. split; [by right|done]. }
    split; [done|].
    rewrite omap_app, Herr. intros Hnil q Hq.
    apply app_eq_nil in Hnil as [Hnil1 Hnil2].
    apply elem_of_cons in Hq as [->|Hq]; [|by apply Hgone].
    destruct (Hkeep p) as [Hp|[_ Hp]]; [|done].
    rewrite Hp, Hlaw. destruct ((unlink p fs).2); [|done].
    apply lookup_delete_eq.
Qed.

End Purge.

(** X5: whatever [unlink] does, [remove_backup_files] raises nothing; it
    calls [unlink] once on each entry its glob listed, in that order, makes
    no other library call, and logs one line per file: a removal that fails
    does not stop the ones after it. *)
Theorem remove_backup_files_attempts_all `{E : Externals} (directory : Path)
    (fs : FS Content) :
  res (remove_backup_files directory fs) = Ok tt
  ∧ omap unlinked (trace (remove_backup_files directory fs))
    = glob_star directory "~" fs
  ∧ length (filter (λ ev, is_call ev = true)
              (trace (remove_backup_files directory fs)))
    = length (glob_star directory "~" fs)
  ∧ length (omap log_line (trace (remove_backup_files directory fs)))
    = length (glob_star directory "~" fs).
Proof.
  destruct (remove_backup_files_ok directory fs) as [Hres Hunlinked].
  split; [done|]. split; [done|].
  unfold remove_backup_files, bind, get_fs. cbn.
  apply for_each_remove_backup_file_events.
Qed.

(** X6: with an [unlink] that removes its file when it succeeds and
    nothing when it raises, the purge changes the file system only by
    removing files its glob listed; and when no removal is logged as
    failed, the folder holds no backup file afterwards. *)
Theorem remove_backup_files_purges `{E : Externals} (directory : Path)
    (fs : FS Content) :
  unlink_lawful →
  (∀ q, fs_of (remove_backup_files directory fs) !! q = fs !! q
        ∨ (q ∈ glob_star directory "~" fs
           ∧ fs_of (remove_backup_files directory fs) !! q = None))
  ∧ (omap error_line (trace (remove_backup_files directory fs)) = [] →
     glob_star directory "~" (fs_of (remove_backup_files directory fs)) = []).
Proof.
  intros Hlaw.
  assert (remove_backup_files directory fs
          = for_each (glob_star directory "~" fs) remove_backup_file fs) as ->.
  { unfold remove_backup_files, bind, get_fs. cbn.
    by destruct (for_each _ _ fs). }
  destruct (for_each_remove_backup_file_fs (glob_star directory "~" fs) fs Hlaw)
    as [Hkeep Hgone].
  split; [done|]. intros Hnil. specialize (Hgone Hnil).
  destruct (glob_star directory "~" (fs_of _)) as [|q l] eqn:Hglob; [done|].
  assert (q ∈ glob_star directory "~"
                (fs_of (for_each (glob_star directory "~" fs)
                          remove_backup_file fs))) as Hq
    by (rewrite Hglob; by left).
  unfold glob_star in Hq at 1. apply list_elem_of_filter in Hq as [Hmatch Hq].
  apply list_elem_of_fmap in Hq as ([q' c] & -> & Hq).
  apply elem_of_map_to_list in Hq. simpl in *.
  destruct (Hkeep q') as [Hsame|[_ Hnone]]; [|congruence].
  assert (q' ∈ glob_star directory "~" fs) as Hin.
  { unfold glob_star. apply list_elem_of_filter. split; [done|].
    apply list_elem_of_fmap. exists (q', c). split; [done|].
    apply elem_of_map_to_list. congruence. }
  specialize (Hgone q' Hin). congruence.
Qed.

Lemma toy_unlink_lawful : unlink_lawful (E := Toy.lib).
Proof.
  intros p fs. simpl. unfold Toy.toy_unlink. by repeat case_match.
Qed.

(** ** Conversion and compositing: what can escape, what is written *)

(** X7: the only exception that leaves [convert_webp_to_jpg] is the
    [ValueError] of [with_suffix] on a path without a file name, raised
    before the [try]: nothing is logged and no library is called.  On any
    other path the function returns, either [None] or the path beside the
    source whose name is the stem followed by [.jpg]. *)
Theorem convert_webp_to_jpg_escapes `{E : Externals} (image_path : Path)
    (fs : FS Content) :
  if bool_decide (name image_path = "") then
    convert_webp_to_jpg image_path fs
    = mkOut (Raise (mkExn ValueError "path has an empty name")) fs []
  else
    ∃ jpg_path,
      with_suffix image_path ".jpg" = Ok jpg_path
      ∧ name jpg_path = stem image_path +:+ ".jpg"
      ∧ parent jpg_path = parent image_path
      ∧ (res (convert_webp_to_jpg image_path fs) = Ok None
         ∨ res (convert_webp_to_jpg image_path fs) = Ok (Some jpg_path)).
Proof.
  case_bool_decide as Hname.
  - unfold convert_webp_to_jpg, with_suffix. cbn [valid_suffix].
    rewrite bool_decide_eq_true_2 by done. done.
  - set (jpg_path := mkPath (root image_path)
                       (removelast (parts image_path)
                          ++ [stem image_path +:+ ".jpg"])).
    exists jpg_path.
    assert (with_suffix image_path ".jpg" = Ok jpg_path) as Hjpg.
    { unfold with_suffix. cbn [valid_suffix].
      by rewrite bool_decide_eq_false_2. }
    split_and!; [done|apply name_snoc|..].
    + unfold parent. simpl. by rewrite removelast_last.
    + destruct (res (convert_webp_to_jpg_body image_path jpg_path fs))
        as [r|e] eqn:Hres.
      * destruct (convert_webp_to_jpg_success _ _ _ _ Hjpg Hres) as [-> ->].
        right. exact Hres.
      * left. by rewrite (convert_webp_to_jpg_failure _ _ _ _ Hjpg Hres).
Qed.

(** X8: when opening, converting and saving succeed,
    [convert_webp_to_jpg] makes exactly these three calls (mode RGB, format
    JPEG, quality 80, saved to the [.jpg] path whether or not a file is
    there already), logs one INFO line and returns the [.jpg] path; the
    file system is the one the save left. *)
Theorem convert_webp_to_jpg_converts `{E : Externals} (image_path jpg_path : Path)
    (fs fs' : FS Content) (img rgb : Image) :
  with_suffix image_path ".jpg" = Ok jpg_path →
  Image_open image_path fs = Ok img →
  Image_convert img "RGB" = Ok rgb →
  Image_save rgb jpg_path "JPEG" (Some 80%Z) fs = (fs', Ok tt) →
  convert_webp_to_jpg image_path fs
  = mkOut (Ok (Some jpg_path)) fs'
      [CImageOpen image_path (Ok img);
       CConvert img "RGB" (Ok rgb);
       CSave rgb jpg_path "JPEG" (Some 80%Z) (Ok tt);
       Log INFO (Converted_to_JPEG image_path)].
Proof.
  intros Hjpg Hopen Hconvert Hsave.
  assert (convert_webp_to_jpg_body image_path jpg_path fs
          = mkOut (Ok (Some jpg_path)) fs'
              [CImageOpen image_path (Ok img);
               CConvert img "RGB" (Ok rgb);
               CSave rgb jpg_path "JPEG" (Some 80%Z) (Ok tt);
               Log INFO (Converted_to_JPEG image_path)]) as Hbody.
  { unfold convert_webp_to_jpg_body, bind, call_ro, call_rw, call_pure,
      logger_info, ret, prepend, DEFAULT_OUTPUT_FORMAT, JPEG_QUALITY.
    cbn. rewrite Hopen. cbn. rewrite Hconvert. cbn. rewrite Hsave. done. }
  destruct (convert_webp_to_jpg_success image_path jpg_path fs (Some jpg_path)
              Hjpg) as [_ ->]; [by rewrite Hbody|done].
Qed.

Lemma convert_webp_to_jpg_converts_witness :
  res (convert_webp_to_jpg (E := Toy.lib) (Toy.photo "a.webp") Toy.fs0)
  = Ok (Some (Toy.photo "a.jpg")).
Proof.
  rewrite (convert_webp_to_jpg_converts (E := Toy.lib) (Toy.photo "a.webp")
             (Toy.photo "a.jpg") Toy.fs0
             (<[Toy.photo "a.jpg" := File (Toy.image_file (1500, 2000)%Z)]> Toy.fs0)
             (1500, 2000)%Z (1500, 2000)%Z).
  - reflexivity.
  - vm_compute. reflexivity.
  - vm_compute. reflexivity.
  - reflexivity.
  - reflexivity.
Defined.

Section Compositing.
Context `{E : Externals}.
Implicit Types (fs : FS Content) (p : Path).

(** A library call followed by the rest of the computation. *)
Lemma call_ro_bind {A B} (op : FS Content → result A) (ev : result A → event)
    (k : A → M B) fs :
  bind (call_ro op ev) k fs
  = match op fs with
    | Ok a => prepend [ev (Ok a)] (k a fs)
    | Raise e => mkOut (Raise e) fs [ev (Raise e)]
    end.
Proof. unfold bind, call_ro. cbn. by destruct (op fs). Qed.



End Compositing.


(** ** Metadata: a location that cannot be read, and the tags left alone *)

(** X10: a truthy location that lacks [latitude] or [longitude] (or is no
    dict) makes the first block of [update_metadata] raise right after the
    load: nothing is dumped or inserted, so the timestamp is not written
    either.  The failure is logged and the caption block runs on the
    untouched file system. *)
Theorem update_metadata_bad_location `{E : Externals} (p : Path) (t : datetime)
    (caption location : pyval) (fs : FS Content) (d : exif_dict) (e : exn) :
  truthy location = true →
  piexif_load p fs = Ok d →
  getitem location "latitude" = Raise e
  ∨ (is_Ok (getitem location "latitude") = true
     ∧ getitem location "longitude" = Raise e) →
  update_exif p t location fs = mkOut (Raise e) fs [CPiexifLoad p (Ok d)]
  ∧ update_metadata p t caption location fs
    = mkOut (Ok tt) (fs_of (update_iptc p caption fs))
        (CPiexifLoad p (Ok d) :: Log ERROR (Failed_to_update_EXIF p e)
           :: trace (update_iptc p caption fs)
           ++ failure_log (Failed_to_update_IPTC p) (res (update_iptc p caption fs))).
Proof.
  intros Hloc Hload Hkeys.
  assert (update_exif p t location fs = mkOut (Raise e) fs [CPiexifLoad p (Ok d)])
    as Hexif.
  { unfold update_exif. rewrite call_ro_bind, Hload, Hloc.
    destruct Hkeys as [Hla|[Hla Hlo]].
    - unfold bind, lift, prepend. rewrite Hla. done.
    - destruct (getitem location "latitude") as [la|]; [|done].
      unfold bind, lift, prepend. cbn. rewrite Hlo. done. }
  split; [done|].
  rewrite update_metadata_eq, Hexif. done.
Qed.

Lemma update_metadata_bad_location_witness :
  omap error_line
    (trace (update_metadata (E := Toy.lib) (Toy.photo "geo.jpg") Toy.taken_at
              PNone (PDict [("latitude", PInt 51)]) Toy.fs_geotagged))
  = [Failed_to_update_EXIF (Toy.photo "geo.jpg") (mkExn KeyError "longitude")].
Proof.
  destruct (update_metadata_bad_location (E := Toy.lib) (Toy.photo "geo.jpg")
              Toy.taken_at PNone (PDict [("latitude", PInt 51)])
              Toy.fs_geotagged (Toy.exif Toy.geotagged_file)
              (mkExn KeyError "longitude")) as [_ ->].
  - reflexivity.
  - vm_compute. reflexivity.
  - right. split; reflexivity.
  - vm_compute. reflexivity.
Defined.

(** X11: when the capture container loads and the location is absent or
    has both coordinates, the container handed to [piexif.dump] is the
    loaded one with [DateTimeOriginal] set: the 0th, Interop and 1st
    directories, the thumbnail and every other Exif tag are as loaded, and
    so is the GPS directory when no location is given. *)
Theorem update_metadata_keeps_other_tags `{E : Externals} (p : Path)
    (t : datetime) (caption location : pyval) (fs : FS Content) (d : exif_dict) :
  piexif_load p fs = Ok d →
  truthy location = false
  ∨ (is_Ok (getitem location "latitude") = true
     ∧ is_Ok (getitem location "longitude") = true) →
  ∃ d',
    omap dumped (trace (update_metadata p t caption location fs)) = [d']
    ∧ ifd_0th d' = ifd_0th d
    ∧ ifd_Interop d' = ifd_Interop d
    ∧ ifd_1st d' = ifd_1st d
    ∧ thumbnail d' = thumbnail d
    ∧ ifd_Exif d' !! DateTimeOriginal
      = Some (PStr (strftime t "%Y:%m:%d %H:%M:%S"))
    ∧ (∀ tag, tag ≠ DateTimeOriginal → ifd_Exif d' !! tag = ifd_Exif d !! tag)
    ∧ (truthy location = false → ifd_GPS d' = ifd_GPS d).
Proof.
  intros Hload Hloc.
  assert (∀ tr, omap dumped (tr ++ failure_log (Failed_to_update_EXIF p)
                                     (res (update_exif p t location fs))
                             ++ trace (update_iptc p caption
                                         (fs_of (update_exif p t location fs)))
                             ++ failure_log (Failed_to_update_IPTC p)
                                  (res (update_iptc p caption
                                          (fs_of (update_exif p t location fs)))))
                = omap dumped tr) as Hrest.
  { intros tr. rewrite !omap_app.
    assert (omap dumped (trace (update_iptc p caption
                                  (fs_of (update_exif p t location fs)))) = [])
      as ->.
    { unfold update_iptc, bind, call_ro, call_rw, call_pure, ret, prepend. cbn.
      repeat (case_match; cbn; try done). }
    by destruct (res (update_exif _ _ _ _)), (res (update_iptc _ _ _));
      rewrite ?app_nil_r. }
  rewrite update_metadata_eq. cbn [trace]. rewrite Hrest.
  unfold update_exif. rewrite call_ro_bind, Hload.
  destruct Hloc as [Hfalse|[Hla Hlo]].
  - rewrite Hfalse.
    eexists. split.
    { unfold bind, ret, call_pure, call_rw, prepend. cbn.
      destruct (piexif_dump _); cbn; reflexivity. }
    cbn. split_and!; try done.
    + apply lookup_insert_eq.
    + intros tag Hne. by rewrite lookup_insert_ne.
  - destruct (truthy location).
    + destruct (getitem location "latitude") as [la|]; [|done].
      destruct (getitem location "longitude") as [lo|]; [|done].
      eexists. split.
      { unfold bind, ret, lift, call_pure, call_rw, prepend. cbn.
        destruct (piexif_dump _); cbn; reflexivity. }
      cbn. split_and!; try done.
      * apply lookup_insert_eq.
      * intros tag Hne. by rewrite lookup_insert_ne.
    + eexists. split.
      { unfold bind, ret, call_pure, call_rw, prepend. cbn.
        destruct (piexif_dump _); cbn; reflexivity. }
      cbn. split_and!; try done.
      * apply lookup_insert_eq.
      * intros tag Hne. by rewrite lookup_insert_ne.
Qed.

Lemma update_metadata_keeps_other_tags_witness :
  ∃ d', omap dumped
          (trace (update_metadata (E := Toy.lib) (Toy.photo "geo.jpg")
                    Toy.taken_at (PStr "hello") Toy.here Toy.fs_geotagged))
        = [d']
        ∧ ifd_0th d' = ∅.
Proof.
  destruct (update_metadata_keeps_other_tags (E := Toy.lib) (Toy.photo "geo.jpg")
              Toy.taken_at (PStr "hello") Toy.here Toy.fs_geotagged
              (Toy.exif Toy.geotagged_file)) as (d' & Hd & H0 & _).
  - vm_compute. reflexivity.
  - right. split; reflexivity.
  - exists d'. split; [exact Hd|exact H0].
Defined.

(** ** Entries: what stops one before its first image *)

Section Entries.
Context `{E : Externals}.
Implicit Types (fs : FS Content) (p : Path).

Lemma process_entry_rejected entry fs e :
  rejection entry = Some e →
  process_entry entry fs = mkOut (Raise e) fs [].
Proof.
  unfold rejection, process_entry. intros Hrej.
  destruct (source_path entry "primary") as [primary|e1]; cbn.
  2:{ injection Hrej as ->. done. }
  unfold bind at 1. cbn. rewrite prepend_nil.
  destruct (source_path entry "secondary") as [secondary|e2]; cbn.
  2:{ injection Hrej as ->. done. }
  unfold bind at 1. cbn. rewrite prepend_nil.
  destruct (parse_takenAt entry) as [t|e3]; [done|].
  injection Hrej as ->. done.
Qed.

Lemma for_each_rejected (entries : list pyval) fs :
  Forall (λ entry, is_Some (rejection entry)) entries →
  for_each entries process_entry_guarded fs
  = mkOut (Ok tt) fs
      (omap (λ entry, Log ERROR ∘ Error_processing_entry entry <$> rejection entry)
            entries).
Proof.
  induction 1 as [|entry entries [e He] _ IH]; [done|].
  cbn [for_each].
  erewrite bind_eq.
  2:{ rewrite process_entry_guarded_eq.
      rewrite (process_entry_rejected entry fs e He). cbn. reflexivity. }
  rewrite IH. simpl. rewrite He. done.
Qed.

End Entries.

(** X12: an entry whose primary path, secondary path or timestamp cannot
    be read (a missing key, an entry or image that is no object, a path
    that is no string, a timestamp that does not parse) is given up before
    anything is read or written: the iteration leaves the file system as it
    was and its only event is the error line for that entry. *)
Theorem process_entry_rejects_malformed `{E : Externals} (entry : pyval)
    (fs : FS Content) (e : exn) :
  rejection entry = Some e →
  process_entry_guarded entry fs
  = mkOut (Ok tt) fs [Log ERROR (Error_processing_entry entry e)].
Proof.
  intros Hrej. rewrite process_entry_guarded_eq.
  by rewrite (process_entry_rejected entry fs e Hrej).
Qed.

Lemma process_entry_rejects_malformed_witness :
  omap log_line
    (trace (process_entry_guarded (E := Toy.lib)
              (PDict [("primary", PDict [("path", PStr "a.webp")]);
                      ("secondary", PDict [("path", PStr "b.jpg")]);
                      ("takenAt", PStr "yesterday")])
              Toy.fs0))
  = [(ERROR, Error_processing_entry
               (PDict [("primary", PDict [("path", PStr "a.webp")]);
                       ("secondary", PDict [("path", PStr "b.jpg")]);
                       ("takenAt", PStr "yesterday")])
               (mkExn ValueError "time data does not match format"))].
Proof.
  rewrite (process_entry_rejects_malformed (E := Toy.lib) _ Toy.fs0
             (mkExn ValueError "time data does not match format")).
  - reflexivity.
  - vm_compute. reflexivity.
Defined.

(** X13: when every item of the manifest is given up in this way (as for
    a manifest that is a JSON object, whose keys are then taken as the
    entries), the run logs one error line per item, does nothing else for
    them, and runs both purges on the file system as it found it. *)
Theorem process_files_rejects_all `{E : Externals} (fs : FS Content)
    (f : Handle) (data : pyval) (entries : list pyval) :
  builtin_open POSTS_JSON fs = Ok f →
  json_load f = Ok data →
  py_iter data = Ok entries →
  Forall (λ entry, is_Some (rejection entry)) entries →
  process_files fs
  = mkOut (Ok tt)
      (fs_of (remove_backup_files COMBINED_FOLDER
                (fs_of (remove_backup_files OUTPUT_FOLDER fs))))
      (COpen POSTS_JSON (Ok f) :: CJsonLoad f (Ok data)
         :: omap (λ entry,
                    Log ERROR ∘ Error_processing_entry entry <$> rejection entry)
                 entries
         ++ trace (remove_backup_files OUTPUT_FOLDER fs)
         ++ trace (remove_backup_files COMBINED_FOLDER
                     (fs_of (remove_backup_files OUTPUT_FOLDER fs)))).
Proof.
  intros Hopen Hjson Hiter Hall.
  destruct (process_files_loaded fs f data entries Hopen Hjson Hiter)
    as (fs1 & tr & Hrun & ->).
  destruct (for_each_entry_batch_run entries fs) as (fs2 & tr2 & Heach & Hrun2).
  rewrite (for_each_rejected entries fs Hall) in Heach.
  injection Heach as <- <-.
  by destruct (batch_run_deterministic _ _ _ _ _ _ Hrun Hrun2) as [-> ->].
Qed.

Lemma process_files_rejects_all_witness :
  omap log_line (trace (process_files (E := Toy.lib) Toy.fs_object))
  = [(ERROR, Error_processing_entry (PStr "posts")
               (mkExn TypeError "string indices must be integers, not str"));
     (ERROR, Error_processing_entry (PStr "user")
               (mkExn TypeError "string indices must be integers, not str"))].
Proof.
  rewrite (process_files_rejects_all (E := Toy.lib) Toy.fs_object
             (Some Toy.object_manifest) Toy.object_manifest
             [PStr "posts"; PStr "user"]).
  - vm_compute. reflexivity.
  - vm_compute. reflexivity.
  - reflexivity.
  - reflexivity.
  - repeat constructor; by eexists.
Defined.

Lemma remove_backup_files_purges_witness :
  glob_star OUTPUT_FOLDER "~"
    (fs_of (remove_backup_files (E := Toy.lib) OUTPUT_FOLDER Toy.fs_backups)) = [].
Proof.
  destruct (remove_backup_files_purges (E := Toy.lib) OUTPUT_FOLDER Toy.fs_backups
              toy_unlink_lawful) as [_ Hgone].
  apply Hgone. vm_compute. reflexivity.
Defined.

(** ** Where the sources are looked up *)

Section Sources.
Context `{E : Externals}.
Implicit Types (fs : FS Content) (p : Path).

Lemma parse_path_name (s : string) :
  name (parse_path s) = "" ∨ wf_part (name (parse_path s)) = true.
Proof.
  destruct (decide (name (parse_path s) = "")) as [|Hne]; [by left|right].
  apply wf_path_last; [apply parse_path_wf|done].
Qed.

Lemma truediv_empty (dir : Path) : truediv dir "" = dir.
Proof.
  unfold truediv. cbn. destruct dir as [r l]. simpl. by rewrite app_nil_r.
Qed.

Lemma truediv_parent (dir : Path) (c : string) :
  wf_part c = true →
  parent (truediv dir c) = dir ∧ name (truediv dir c) = c.
Proof.
  intros Hc. rewrite truediv_part by done. split.
  - unfold parent. simpl. rewrite removelast_last. by destruct dir.
  - apply name_snoc.
Qed.

End Sources.

(** X14: of a path in the manifest the driver keeps the file name only:
    the folders the manifest names are ignored, and the source is the entry
    of that name directly in [PHOTO_FOLDER] (the photo folder itself when
    the path has no file name). *)
Theorem source_path_uses_name_only (entry : pyval) (which : string) (p : Path) :
  source_path entry which = Ok p →
  ∃ img s,
    getitem entry which = Ok img
    ∧ getitem img "path" = Ok (PStr s)
    ∧ p = truediv PHOTO_FOLDER (name (parse_path s))
    ∧ (name (parse_path s) = "" ∧ p = PHOTO_FOLDER
       ∨ parent p = PHOTO_FOLDER ∧ name p = name (parse_path s)).
Proof.
  unfold source_path. intros Hp.
  destruct (getitem entry which) as [img|] eqn:Himg; [|done].
  destruct (getitem img "path") as [v|] eqn:Hv; [|done].
  destruct v as [| | | |s| |]; try done. cbn [Path_of] in Hp.
  injection Hp as <-.
  exists img, s. split_and!; [done..|].
  destruct (parse_path_name s) as [Hempty|Hpart].
  - left. split; [done|]. rewrite Hempty. apply truediv_empty.
  - right. by apply truediv_parent.
Qed.

Lemma source_path_uses_name_only_witness :
  ∃ img s,
    getitem (Toy.post "/bereal/a.webp" "/bereal/b.jpg" "") "primary" = Ok img
    ∧ getitem img "path" = Ok (PStr s)
    ∧ Toy.photo "a.webp" = truediv PHOTO_FOLDER (name (parse_path s))
    ∧ (name (parse_path s) = "" ∧ Toy.photo "a.webp" = PHOTO_FOLDER
       ∨ parent (Toy.photo "a.webp") = PHOTO_FOLDER
         ∧ name (Toy.photo "a.webp") = name (parse_path s)).
Proof.
  apply (source_path_uses_name_only
           (Toy.post "/bereal/a.webp" "/bereal/b.jpg" "") "primary").
  vm_compute. reflexivity.
Defined.

(** ** A copy that fails *)

Section CopyFails.
Context `{E : Externals}.
Implicit Types (fs : FS Content) (p : Path).

Lemma source_path_dict (entry : pyval) (which : string) p :
  source_path entry which = Ok p → ∃ c, dict_get entry "caption" = Ok c.
Proof.
  unfold source_path, getitem. destruct entry; try done. intros _. by eexists.
Qed.

(** The statements of the per-entry [try] body after its first three. *)
Lemma process_entry_images entry primary secondary (t : datetime) fs :
  source_path entry "primary" = Ok primary →
  source_path entry "secondary" = Ok secondary →
  parse_takenAt entry = Ok t →
  process_entry entry fs
  = (for_each [primary; secondary] (process_image entry t) >>
     let* combined_path :=
       get_unique_filename
         (truediv COMBINED_FOLDER
                  (strftime t "%Y%m%d_%H%M%S" +:+ "_combined.jpg")) in
     combine_images primary secondary combined_path >>
     let* caption := lift (dict_get entry "caption") in
     update_metadata combined_path t caption PNone) fs.
Proof.
  intros Hp Hs Ht. unfold process_entry. rewrite Hp, Hs, Ht.
  do 3 (erewrite (bind_eq (lift _)) by done; rewrite prepend_nil). done.
Qed.

End CopyFails.

(** X15: a copy that raises ends its entry at once: when [copy2] of the
    primary image raises, the entry's iteration consists of that call and
    the error line for the entry; the secondary image, the composite and
    the metadata writer are not attempted. *)
Theorem failed_copy_aborts_entry `{E : Externals} (entry : pyval)
    (primary secondary : Path) (t : datetime) (fs : FS Content) :
  source_path entry "primary" = Ok primary →
  source_path entry "secondary" = Ok secondary →
  parse_takenAt entry = Ok t →
  path_exists fs primary = true →
  suffix primary ≠ ".webp" →
  ∃ new_path,
    get_unique_filename (truediv OUTPUT_FOLDER (name primary)) fs
    = mkOut (Ok new_path) fs []
    ∧ ∀ e, (shutil_copy2 primary new_path fs).2 = Raise e →
        process_entry_guarded entry fs
        = mkOut (Ok tt) (shutil_copy2 primary new_path fs).1
            [CCopy2 primary new_path (Raise e);
             Log ERROR (Error_processing_entry entry e)].
Proof.
  intros Hp Hs Ht Hexists Hsuffix.
  destruct (source_path_wf _ _ _ Hp) as [Hwf Hname].
  destruct (source_path_dict _ _ _ Hp) as [caption Hcaption].
  destruct (process_image_copied entry caption t primary fs Hwf Hname Hexists
              Hsuffix Hcaption) as (new_path & Hunique & _ & Himage).
  exists new_path. split; [done|]. intros e He. rewrite He in Himage.
  rewrite process_entry_guarded_eq.
  rewrite (process_entry_images entry primary secondary t fs Hp Hs Ht).
  erewrite bind_raise_eq.
  2:{ cbn [for_each]. erewrite bind_raise_eq; [reflexivity|exact Himage]. }
  done.
Qed.

Lemma failed_copy_aborts_entry_witness :
  ∃ new_path,
    get_unique_filename (E := Toy.lib) (truediv OUTPUT_FOLDER (name PHOTO_FOLDER))
      Toy.folders
    = mkOut (E := Toy.lib) (Ok new_path) Toy.folders []
    ∧ ∀ e, (shutil_copy2 (Externals := Toy.lib) PHOTO_FOLDER new_path
              Toy.folders).2 = Raise e →
        process_entry_guarded (E := Toy.lib)
          (Toy.post "" "b.jpg" "2023-01-15T10:30:45.123Z") Toy.folders
        = mkOut (E := Toy.lib) (Ok tt)
            (shutil_copy2 (Externals := Toy.lib) PHOTO_FOLDER new_path
               Toy.folders).1
            [CCopy2 PHOTO_FOLDER new_path (Raise e);
             Log ERROR (Error_processing_entry
                          (Toy.post "" "b.jpg" "2023-01-15T10:30:45.123Z") e)].
Proof.
  apply (failed_copy_aborts_entry (E := Toy.lib)
           (Toy.post "" "b.jpg" "2023-01-15T10:30:45.123Z")
           PHOTO_FOLDER (Toy.photo "b.jpg") Toy.taken_at Toy.folders).
  - vm_compute. reflexivity.
  - vm_compute. reflexivity.
  - vm_compute. reflexivity.
  - vm_compute. reflexivity.
  - vm_compute. intros H. discriminate H.
Defined.

(** An entry whose primary path is empty names the photo folder itself:
    the copy fails and nothing else is tried. *)
Example process_entry_empty_primary_path :
  omap log_line
    (trace (process_entry_guarded (E := Toy.lib)
              (Toy.post "" "b.jpg" "2023-01-15T10:30:45.123Z") Toy.fs0))
  = [(ERROR, Error_processing_entry
               (Toy.post "" "b.jpg" "2023-01-15T10:30:45.123Z")
               Toy.IsADirectory)].
Proof. vm_compute. reflexivity. Qed.

(** ** What a run deletes *)

(** One step through a computation for a closed predicate on traces;
    [leaf] proves the predicate of the single events. *)
Ltac walk HP leaf :=
  first
    [ apply (traces_bind _ HP); [|intros ?]
    | apply (traces_try_except _ HP); [|intros ?]
    | apply (traces_try_except_cls _ HP)
    | apply (traces_for_each _ HP); intros ?
    | apply (traces_ret _ HP)
    | apply (traces_lift _ HP)
    | apply (traces_get_fs _ HP)
    | apply (traces_get_unique_filename _ HP)
    | apply traces_call_ro; intros ?; leaf
    | apply traces_call_rw; intros ?; leaf
    | apply traces_call_pure; leaf
    | apply traces_logger_info; leaf
    | apply traces_logger_error; leaf
    | match goal with
      | |- traces _ (if ?b then _ else _) => destruct b
      | |- traces _ (match ?x with _ => _ end) => destruct x
      end ].

Section Deletes.
Context `{E : Externals}.
Implicit Types (fs : FS Content) (p : Path).

Lemma Forall_omap {B} (f : event → option B) (ψ : B → Prop) (tr : list event) :
  Forall ψ (omap f tr) → Forall (λ ev, ∀ q, f ev = Some q → ψ q) tr.
Proof.
  induction tr as [|ev tr IH]; simpl; [done|].
  destruct (f ev) as [b|] eqn:Hev.
  - intros [Hb Htr]%Forall_cons. constructor; [|by apply IH].
    intros q Hq. congruence.
  - intros Htr. constructor; [|by apply IH]. intros q Hq. congruence.
Qed.

(** The purge of a folder only deletes direct entries of that folder whose
    name ends in [~]. *)
Lemma remove_backup_files_unlinks directory fs :
  Forall (λ ev, ∀ q, unlinked ev = Some q →
                     in_dir directory q = true
                     ∧ ends_with_str "~" (name q) = true)
         (trace (remove_backup_files directory fs)).
Proof.
  apply Forall_omap.
  destruct (remove_backup_files_ok directory fs) as [_ ->].
  apply Forall_forall. intros q Hq. unfold glob_star in Hq.
  apply list_elem_of_filter in Hq as [Hq _].
  by apply andb_true_iff in Hq.
Qed.

Section NoUnlink.
Variable P : list event → Prop.
Hypothesis HP : closed P.
Hypothesis Hquiet : ∀ ev, unlinked ev = None → P [ev].

Ltac quiet_leaf := idtac; intros; apply Hquiet; reflexivity.

Lemma update_metadata_never_unlinks p (t : datetime) (caption location : pyval) :
  traces P (update_metadata p t caption location).
Proof.
  unfold update_metadata, update_exif, update_iptc.
  repeat walk HP quiet_leaf.
Qed.

Lemma convert_webp_to_jpg_never_unlinks p : traces P (convert_webp_to_jpg p).
Proof.
  unfold convert_webp_to_jpg, convert_webp_to_jpg_body.
  repeat walk HP quiet_leaf.
Qed.

Lemma combine_images_never_unlinks p q o : traces P (combine_images p q o).
Proof. unfold combine_images. repeat walk HP quiet_leaf. Qed.

Lemma process_image_never_unlinks entry (t : datetime) p :
  traces P (process_image entry t p).
Proof.
  unfold process_image.
  repeat first [ apply update_metadata_never_unlinks
               | apply convert_webp_to_jpg_never_unlinks
               | walk HP quiet_leaf ].
Qed.

Lemma process_entry_never_unlinks entry : traces P (process_entry entry).
Proof.
  unfold process_entry.
  repeat first [ apply update_metadata_never_unlinks
               | apply combine_images_never_unlinks
               | apply process_image_never_unlinks
               | walk HP quiet_leaf ].
Qed.

End NoUnlink.

End Deletes.

(** X16: in every run, [unlink] is only ever called on direct entries of
    the two output folders whose names end in [~]. *)
Theorem process_files_deletes_only_backups `{E : Externals} (fs : FS Content) :
  Forall (λ ev, ∀ q, unlinked ev = Some q →
                     (in_dir OUTPUT_FOLDER q = true
                      ∨ in_dir COMBINED_FOLDER q = true)
                     ∧ ends_with_str "~" (name q) = true)
         (trace (process_files fs)).
Proof.
  set (φ := λ ev : event, ∀ q, unlinked ev = Some q →
                (in_dir OUTPUT_FOLDER q = true ∨ in_dir COMBINED_FOLDER q = true)
                ∧ ends_with_str "~" (name q) = true).
  assert (closed (Forall φ)) as HP.
  { split; [constructor|]. intros t1 t2 H1 H2. by apply Forall_app. }
  assert (∀ ev, unlinked ev = None → Forall φ [ev]) as Hquiet.
  { intros ev Hev. constructor; [|constructor]. intros q Hq. congruence. }
  assert (∀ directory,
            directory = OUTPUT_FOLDER ∨ directory = COMBINED_FOLDER →
            traces (Forall φ) (remove_backup_files directory)) as Hpurge.
  { intros directory Hdir fs'.
    eapply Forall_impl; [apply remove_backup_files_unlinks|].
    intros ev Hev q Hq. destruct (Hev q Hq) as [Hin Hend].
    split; [|done]. destruct Hdir as [->| ->]; [by left|by right]. }
  revert fs. change (traces (Forall φ) process_files).
  unfold process_files, process_entry_guarded, load_manifest.
  repeat first [ apply (process_entry_never_unlinks _ HP Hquiet)
               | apply Hpurge; [by left]
               | apply Hpurge; [by right]
               | walk HP ltac:(idtac; intros; apply Hquiet; reflexivity) ].
Qed.

(** ** Where a run writes *)

Section Targets.
Context `{E : Externals}.
Implicit Types (fs : FS Content) (p : Path) (φ : event → Prop).

Lemma yields_bind {A B} φ (R : A → Prop) (Q : B → Prop) (c : M A)
    (k : A → M B) fs :
  yields φ R (c fs) →
  (∀ a, res (c fs) = Ok a → R a → yields φ Q (k a (fs_of (c fs)))) →
  yields φ Q (bind c k fs).
Proof.
  intros [Htr Hres] Hk. unfold bind.
  destruct (res (c fs)) as [a|e] eqn:Hc.
  - destruct (Hk a eq_refl (Hres a eq_refl)) as [Htr' Hres'].
    split; [by apply Forall_app|done].
  - split; [done|]. by intros b.
Qed.

Lemma yields_ret {A} φ (Q : A → Prop) (a : A) fs : Q a → yields φ Q (ret a fs).
Proof. intros Ha. split; [constructor|]. by intros b [= <-]. Qed.

Lemma yields_lift {A} φ (Q : A → Prop) (r : result A) fs :
  (∀ a, r = Ok a → Q a) → yields φ Q (lift r fs).
Proof. intros Hr. split; [constructor|]. done. Qed.

Lemma yields_get_fs φ fs : yields φ (eq fs) (get_fs fs).
Proof. split; [constructor|]. by intros a [= <-]. Qed.

Lemma yields_call_rw {A} φ (op : FS Content → FS Content * result A)
    (ev : result A → event) fs :
  (∀ r, φ (ev r)) → yields φ (λ _, True) (call_rw op ev fs).
Proof. intros Hev. split; [by repeat constructor|done]. Qed.

Lemma yields_weaken {A} φ φ' (Q Q' : A → Prop) (o : outcome A) :
  yields φ Q o → (∀ ev, φ ev → φ' ev) → (∀ a, Q a → Q' a) → yields φ' Q' o.
Proof.
  intros [Htr Hres] Hφ HQ. split; [by eapply Forall_impl|]. eauto.
Qed.

Lemma yields_traces {A} φ (c : M A) fs :
  traces (Forall φ) c → yields φ (λ _, True) (c fs).
Proof. intros Hc. split; [apply Hc|done]. Qed.

Lemma yields_for_each {A} φ (l : list A) (body : A → M unit) fs :
  (∀ x fs', x ∈ l → yields φ (λ _, True) (body x fs')) →
  yields φ (λ _, True) (for_each l body fs).
Proof.
  revert fs. induction l as [|x l IH]; intros fs Hbody.
  - by apply yields_ret.
  - cbn [for_each]. eapply yields_bind; [apply Hbody; by left|].
    intros _ _ _. apply IH. intros y fs' Hy. apply Hbody. by right.
Qed.

Lemma Forall_closed φ : closed (Forall φ).
Proof. split; [constructor|]. intros t1 t2 H1 H2. by apply Forall_app. Qed.

(** The metadata writer works on the file it is given, and on no other. *)
Lemma update_metadata_within p (t : datetime) (caption location : pyval) :
  traces (Forall (writes_within (eq p) (λ _, False)))
         (update_metadata p t caption location).
Proof.
  unfold update_metadata, update_exif, update_iptc.
  repeat walk (Forall_closed (writes_within (eq p) (λ _, False)))
    ltac:(idtac; repeat constructor; (intros q [= <-] || done); done).
Qed.

Lemma convert_body_within image_path jpg_path :
  traces (Forall (writes_within (λ _, False) (eq jpg_path)))
         (convert_webp_to_jpg_body image_path jpg_path).
Proof.
  unfold convert_webp_to_jpg_body.
  repeat walk (Forall_closed (writes_within (λ _, False) (eq jpg_path)))
    ltac:(idtac; repeat constructor; (intros q [= <-] || done); done).
Qed.

Lemma combine_images_within primary secondary output :
  traces (Forall (writes_within (λ _, False) (eq output)))
         (combine_images primary secondary output).
Proof.
  unfold combine_images.
  repeat walk (Forall_closed (writes_within (λ _, False) (eq output)))
    ltac:(idtac; repeat constructor; (intros q [= <-] || done); done).
Qed.

End Targets.

Section TargetPaths.
Context `{E : Externals}.
Import StrFacts.
Implicit Types (fs : FS Content) (p q : Path).

(** The unique name chosen for a path lies in the folder of that path. *)
Lemma unique_in_folder fs p q :
  wf_path p = true → name p ≠ "" →
  res (get_unique_filename p fs) = Ok q →
  get_unique_filename p fs = mkOut (Ok q) fs []
  ∧ parent q = parent p ∧ wf_path q = true ∧ name q ≠ ""
  ∧ path_exists fs q = false
  ∧ (Str.ends_with dot (name p) = false → suffix q = suffix p).
Proof.
  intros Hwf Hname Hres.
  destruct (get_unique_filename_shape fs p Hwf Hname) as (q1 & Hrun & Hfree & Hq).
  destruct (get_unique_filename_total fs p Hwf Hname) as (q2 & Hrun2 & _ & Hwf2 & Hn2).
  rewrite Hrun in Hres, Hrun2. cbn in Hres. injection Hres as ->.
  injection Hrun2 as <-. split_and!; try done.
  - destruct Hq as [->|[k ->]]; [done|apply numbered_path_parent].
  - intros Hend. destruct Hq as [->|[k ->]]; [done|].
    by apply numbered_path_suffix.
Qed.

Lemma with_suffix_parent p q (sfx : string) :
  with_suffix p sfx = Ok q → parent q = parent p.
Proof.
  unfold with_suffix. repeat case_match; try done. intros [= <-].
  unfold parent. simpl. by rewrite removelast_last.
Qed.

Lemma stem_nonempty p : name p ≠ "" → stem p ≠ "".
Proof.
  intros Hname. unfold stem.
  destruct (suffix_index (name p)) as [i|] eqn:Hi; [|done].
  destruct (suffix_index_Some _ _ Hi) as (a & t & Hnm & <- & Ha & _).
  by rewrite Hnm, take_app_length.
Qed.

(** A path given the suffix [.jpg] has it, and its name does not end in
    a dot. *)
Lemma with_suffix_jpg_suffix p q :
  with_suffix p ".jpg" = Ok q →
  suffix q = ".jpg" ∧ Str.ends_with dot (name q) = false.
Proof.
  unfold with_suffix. cbn [valid_suffix]. case_bool_decide as Hname; [done|].
  intros [= <-]. unfold suffix. rewrite name_snoc.
  change (stem p +:+ ".jpg") with (stem p +:+ String dot "jpg").
  split.
  - rewrite suffix_index_app by (done || by apply stem_nonempty).
    apply drop_app_length.
  - by rewrite ends_with_app.
Qed.

Lemma output_path_parent image_path :
  wf_path image_path = true → name image_path ≠ "" →
  parent (truediv OUTPUT_FOLDER (name image_path)) = OUTPUT_FOLDER.
Proof.
  intros Hwf Hname. by apply truediv_parent, wf_path_last.
Qed.

Lemma combined_path_parent (stamp : string) :
  Str.contains sep stamp = false →
  parent (truediv COMBINED_FOLDER (stamp +:+ "_combined.jpg")) = COMBINED_FOLDER.
Proof.
  intros Hsep. apply truediv_parent. unfold wf_part, keep_part.
  rewrite contains_app, Hsep.
  rewrite !bool_decide_eq_false_2; [done|..];
    intros Heq; apply (f_equal String.length) in Heq;
    rewrite app_length in Heq; simpl in Heq; lia.
Qed.

(** A source path is the photo folder or a direct entry of it. *)
Lemma source_path_parent (entry : pyval) (which : string) p :
  source_path entry which = Ok p →
  p = PHOTO_FOLDER ∨ parent p = PHOTO_FOLDER.
Proof.
  unfold source_path. intros Hp.
  destruct (getitem entry which) as [img|]; [|done].
  destruct (getitem img "path") as [v|]; [|done].
  destruct v as [| | | |s| |]; try done. cbn [Path_of] in Hp.
  injection Hp as <-.
  destruct (parse_path_name s) as [Hempty|Hpart].
  - left. rewrite Hempty. apply truediv_empty.
  - right. by apply truediv_parent.
Qed.

End TargetPaths.

Section TargetsOfEntry.
Context `{E : Externals}.
Implicit Types (fs : FS Content) (p q : Path).

Lemma writes_within_impl (dst dst' sv sv' : Path → Prop) (ev : event) :
  (∀ q, dst q → dst' q) → (∀ q, sv q → sv' q) →
  writes_within dst sv ev → writes_within dst' sv' ev.
Proof. intros Hd Hs (H1 & H2 & H3). split_and!; eauto. Qed.

Lemma yields_unique φ fs p :
  wf_path p = true → name p ≠ "" →
  yields φ (λ q, parent q = parent p ∧ wf_path q = true ∧ name q ≠ ""
                 ∧ (Str.ends_with dot (name p) = false → suffix q = suffix p))
         (get_unique_filename p fs).
Proof.
  intros Hwf Hname. split.
  - unfold get_unique_filename. cbn. constructor.
  - intros q Hq.
    by destruct (unique_in_folder fs p q Hwf Hname Hq) as (_ & ? & ? & ? & _ & ?).
Qed.

(** The conversion saves next to its source and writes nothing else. *)
Lemma convert_webp_to_jpg_within image_path fs :
  yields (writes_within (λ _, False) (λ q, parent q = parent image_path))
         (λ _, True) (convert_webp_to_jpg image_path fs).
Proof.
  unfold convert_webp_to_jpg.
  eapply (yields_bind _ (λ jpg, parent jpg = parent image_path)).
  { apply yields_lift. intros jpg Hjpg. by eapply with_suffix_parent. }
  intros jpg_path _ Hparent.
  eapply yields_weaken; [apply yields_traces|..].
  - apply (traces_try_except _ (Forall_closed _));
      [apply convert_body_within|intros e].
    repeat walk (Forall_closed (writes_within (λ _, False) (eq jpg_path)))
      ltac:(idtac; repeat constructor; (intros q [= <-] || done); done).
  - intros ev. apply writes_within_impl; [done|]. by intros q <-.
  - done.
Qed.

(** One image: copies, moves and metadata go to the output folder, the
    only image saved is the converted one beside the source. *)
Lemma process_image_within entry (t : datetime) image_path fs :
  wf_path image_path = true → name image_path ≠ "" →
  yields (writes_within (λ q, parent q = OUTPUT_FOLDER)
                        (λ q, parent q = parent image_path))
         (λ _, True) (process_image entry t image_path fs).
Proof.
  intros Hwf Hname.
  destruct (output_path_wf image_path Hwf Hname) as [Hout Hout_name].
  pose proof (output_path_parent image_path Hwf Hname) as Hout_parent.
  unfold process_image.
  eapply yields_bind; [apply yields_get_fs|]. intros a _ <-.
  destruct (path_exists fs image_path); cbn [negb]; [|by apply yields_ret].
  eapply yields_bind;
    [apply yields_unique; [done|by rewrite Hout_name]|].
  intros first_path _ (Hparent1 & Hwf1 & Hname1 & _).
  rewrite Hout_parent in Hparent1.
  eapply (yields_bind _ (λ q, parent q = OUTPUT_FOLDER)).
  { case_bool_decide.
    - eapply yields_bind.
      { eapply yields_weaken; [apply convert_webp_to_jpg_within|..].
        - intros ev. by apply writes_within_impl.
        - done. }
      intros [converted|] _ _; [|by apply yields_ret].
      eapply (yields_bind _ (λ q, parent q = OUTPUT_FOLDER
                                  ∧ wf_path q = true ∧ name q ≠ "")).
      { apply yields_lift. intros jpg Hjpg.
        destruct (with_suffix_jpg first_path Hwf1 Hname1) as (jpg' & Hjpg' & ? & ?).
        rewrite Hjpg in Hjpg'. injection Hjpg' as <-.
        split_and!; [|done..].
        by rewrite (with_suffix_parent _ _ _ Hjpg). }
      intros jpg _ (Hparent2 & Hwf2 & Hname2).
      eapply yields_bind; [by apply yields_unique|].
      intros new_path _ (Hparent3 & _). rewrite Hparent2 in Hparent3.
      eapply yields_bind; [|intros; by apply yields_ret].
      apply yields_call_rw. intros r. split_and!; [|done..].
      by intros q [= <-].
    - eapply yields_bind; [|intros; by apply yields_ret].
      apply yields_call_rw. intros r. split_and!; [|done..].
      by intros q [= <-]. }
  intros new_path _ Hparent.
  eapply (yields_bind _ (λ _, True)); [by apply yields_lift|].
  intros caption _ _.
  eapply yields_weaken; [apply yields_traces, update_metadata_within|..].
  - intros ev. apply writes_within_impl; [by intros q <-|done].
  - done.
Qed.

End TargetsOfEntry.

(** X17: for an entry whose paths and timestamp can be read (the stamp of
    the timestamp holding no separator), every copy and move writes onto,
    and every metadata call works on, a direct entry of [OUTPUT_FOLDER] or
    [COMBINED_FOLDER]; images are saved only beside a source (the converted
    JPEG) or in [COMBINED_FOLDER]; nothing is deleted.  No such destination
    is one of the entry's two source paths. *)
Theorem process_entry_writes_within `{E : Externals} (entry : pyval)
    (primary secondary : Path) (t : datetime) (fs : FS Content) :
  source_path entry "primary" = Ok primary →
  source_path entry "secondary" = Ok secondary →
  parse_takenAt entry = Ok t →
  Str.contains sep (strftime t "%Y%m%d_%H%M%S") = false →
  Forall (writes_within
            (λ q, parent q = OUTPUT_FOLDER ∨ parent q = COMBINED_FOLDER)
            (λ q, parent q = parent primary ∨ parent q = parent secondary
                  ∨ parent q = COMBINED_FOLDER))
         (trace (process_entry entry fs))
  ∧ (∀ q, parent q = OUTPUT_FOLDER ∨ parent q = COMBINED_FOLDER →
          q ≠ primary ∧ q ≠ secondary).
Proof.
  intros Hp Hs Ht Hstamp.
  destruct (source_path_wf _ _ _ Hp) as [Hwfp Hnp].
  destruct (source_path_wf _ _ _ Hs) as [Hwfs Hns].
  split.
  - rewrite (process_entry_images entry primary secondary t fs Hp Hs Ht).
    eapply (yields_bind _ (λ _, True) (λ _, True)).
    { apply yields_for_each. intros x fs' Hx.
      apply elem_of_cons in Hx as [->|Hx];
        [|apply elem_of_cons in Hx as [->|Hx]; [|by apply elem_of_nil in Hx]].
      - eapply yields_weaken; [by apply process_image_within|..]; [|done].
        intros ev. apply writes_within_impl; [by left|by left].
      - eapply yields_weaken; [by apply process_image_within|..]; [|done].
        intros ev. apply writes_within_impl; [by left|]. intros q Hq.
        right. by left. }
    intros _ _ _.
    destruct (combined_path_wf (strftime t "%Y%m%d_%H%M%S")) as [Hwfc Hnc].
    eapply yields_bind; [by apply yields_unique|].
    intros combined_path _ (Hparent & _).
    rewrite (combined_path_parent _ Hstamp) in Hparent.
    eapply (yields_bind _ (λ _, True)).
    { eapply yields_weaken; [apply yields_traces, combine_images_within|..].
      - intros ev. apply writes_within_impl; [done|]. intros q <-.
        right. by right.
      - done. }
    intros _ _ _.
    eapply (yields_bind _ (λ _, True)); [by apply yields_lift|].
    intros caption _ _.
    eapply yields_weaken; [apply yields_traces, update_metadata_within|..].
    + intros ev. apply writes_within_impl; [intros q <-; by right|done].
    + done.
  - intros q Hq.
    assert (∀ p, p = PHOTO_FOLDER ∨ parent p = PHOTO_FOLDER → q ≠ p) as Hne.
    { intros p Hfolder ->.
      destruct Hfolder as [->|Hfolder]; [|rewrite Hfolder in Hq];
        by destruct Hq. }
    split; apply Hne; by eapply source_path_parent.
Qed.

Lemma process_entry_writes_within_witness :
  Forall (writes_within (E := Toy.lib)
            (λ q, parent q = OUTPUT_FOLDER ∨ parent q = COMBINED_FOLDER)
            (λ q, parent q = parent (Toy.photo "a.webp")
                  ∨ parent q = parent (Toy.photo "b.jpg")
                  ∨ parent q = COMBINED_FOLDER))
         (trace (process_entry (E := Toy.lib)
                   (Toy.post "/bereal/a.webp" "/bereal/b.jpg"
                             "2023-01-15T10:30:45.123Z") Toy.fs0)).
Proof.
  apply (process_entry_writes_within (E := Toy.lib)
           (Toy.post "/bereal/a.webp" "/bereal/b.jpg" "2023-01-15T10:30:45.123Z")
           (Toy.photo "a.webp") (Toy.photo "b.jpg") Toy.taken_at Toy.fs0).
  - vm_compute. reflexivity.
  - vm_compute. reflexivity.
  - vm_compute. reflexivity.
  - vm_compute. reflexivity.
Defined.

(** ** A conversion that succeeds *)

Section Converted.
Context `{E : Externals}.
Implicit Types (fs : FS Content) (p q : Path).

Lemma update_metadata_moves p (t : datetime) (caption location : pyval) fs :
  omap moved (trace (update_metadata p t caption location fs)) = [].
Proof.
  rewrite update_metadata_eq. cbn [trace]. rewrite !omap_app.
  destruct (update_exif_opens p t location fs) as (_ & _ & ->).
  destruct (update_iptc_opens p caption (fs_of (update_exif p t location fs)))
    as (_ & _ & ->).
  by destruct (res (update_exif _ _ _ _)), (res (update_iptc _ _ _)).
Qed.

End Converted.

(** X18: a [.webp] source that converts is moved, from where the
    converter saved it beside the source, to a path of [OUTPUT_FOLDER] that
    did not exist and has the suffix [.jpg]; that is the only move, and
    the source itself is not deleted. *)
Theorem converted_image_moved_as_jpg `{E : Externals} (entry caption : pyval)
    (t : datetime) (image_path jpg_path : Path) (fs : FS Content)
    (r : option Path) :
  wf_path image_path = true →
  path_exists fs image_path = true →
  suffix image_path = ".webp" →
  with_suffix image_path ".jpg" = Ok jpg_path →
  res (convert_webp_to_jpg_body image_path jpg_path fs) = Ok r →
  dict_get entry "caption" = Ok caption →
  ∃ new_path,
    suffix new_path = ".jpg"
    ∧ parent new_path = OUTPUT_FOLDER
    ∧ parent jpg_path = parent image_path
    ∧ path_exists (fs_of (convert_webp_to_jpg_body image_path jpg_path fs))
                  new_path = false
    ∧ omap moved (trace (process_image entry t image_path fs))
      = [(jpg_path, new_path)]
    ∧ omap unlinked (trace (process_image entry t image_path fs)) = [].
Proof.
  intros Hwf Hexists Hsuffix Hjpg Hres Hcaption.
  assert (name image_path ≠ "") as Hname
    by (apply suffix_name; by rewrite Hsuffix).
  destruct (output_path_wf image_path Hwf Hname) as [Hout Hout_name].
  destruct (get_unique_filename_total fs _ Hout ltac:(by rewrite Hout_name))
    as (first_path & Hunique & _ & Hwf1 & Hname1).
  destruct (unique_in_folder fs _ first_path Hout ltac:(by rewrite Hout_name)
              ltac:(by rewrite Hunique)) as (_ & Hparent1 & _).
  rewrite (output_path_parent image_path Hwf Hname) in Hparent1.
  destruct (with_suffix_jpg first_path Hwf1 Hname1) as (jpg & Hjpg1 & Hwf2 & Hname2).
  destruct (with_suffix_jpg_suffix _ _ Hjpg1) as [Hsfx2 Hend2].
  set (oc := convert_webp_to_jpg_body image_path jpg_path fs) in *.
  destruct (get_unique_filename_total (fs_of oc) jpg Hwf2 Hname2)
    as (new_path & Hunique2 & Hfree & _).
  destruct (unique_in_folder (fs_of oc) jpg new_path Hwf2 Hname2
              ltac:(by rewrite Hunique2)) as (_ & Hparent3 & _ & _ & _ & Hsfx3).
  destruct (convert_webp_to_jpg_success _ _ _ _ Hjpg Hres) as [-> Hconv].
  exists new_path. split_and!.
  - by rewrite Hsfx3.
  - by rewrite Hparent3, (with_suffix_parent _ _ _ Hjpg1).
  - by eapply with_suffix_parent.
  - done.
  - assert (process_image entry t image_path fs
            = prepend (trace oc)
                (match (shutil_move jpg_path new_path (fs_of oc)).2 with
                 | Ok _ =>
                     prepend [CMove jpg_path new_path (Ok tt)]
                       (update_metadata new_path t caption PNone
                          (shutil_move jpg_path new_path (fs_of oc)).1)
                 | Raise e =>
                     mkOut (Raise e) (shutil_move jpg_path new_path (fs_of oc)).1
                           [CMove jpg_path new_path (Raise e)]
                 end)) as Hrun.
    { unfold process_image.
      rewrite (bind_eq _ _ fs fs fs []) by done.
      rewrite prepend_nil, Hexists. cbn [negb].
      rewrite (bind_eq _ _ fs first_path fs []) by done.
      rewrite prepend_nil, Hsuffix, bool_decide_eq_true_2 by done.
      destruct (shutil_move jpg_path new_path (fs_of oc)) as [fs' [[]|e]] eqn:Hmove;
        cbn.
      - erewrite (bind_eq (bind _ _)).
        2:{ erewrite bind_eq
              by (rewrite Hconv, <-Hres; symmetry; apply outcome_eta).
            rewrite Hjpg1. erewrite (bind_eq (lift _)) by done.
            rewrite prepend_nil.
            erewrite (bind_eq (get_unique_filename _)) by exact Hunique2.
            rewrite prepend_nil.
            erewrite bind_eq by (unfold call_rw; by rewrite Hmove).
            unfold prepend, ret. cbn. reflexivity. }
        rewrite Hcaption. erewrite (bind_eq (lift _)) by done.
        rewrite prepend_nil. unfold prepend. cbn. by rewrite <-app_assoc.
      - erewrite bind_raise_eq; [done|].
        erewrite bind_eq by (rewrite Hconv, <-Hres; symmetry; apply outcome_eta).
        rewrite Hjpg1. erewrite (bind_eq (lift _)) by done.
        rewrite prepend_nil.
        erewrite (bind_eq (get_unique_filename _)) by exact Hunique2.
        rewrite prepend_nil.
        erewrite bind_raise_eq by (unfold call_rw; by rewrite Hmove).
        unfold prepend. cbn. done. }
    rewrite Hrun. unfold prepend. cbn [trace]. rewrite omap_app.
    destruct (convert_body_events image_path jpg_path fs) as (_ & Hquiet & _).
    fold oc in Hquiet. rewrite Hquiet.
    destruct ((shutil_move jpg_path new_path (fs_of oc)).2); cbn; [|done].
    by rewrite update_metadata_moves.
  - destruct (process_image_within entry t image_path fs Hwf Hname) as [Hall _].
    induction Hall as [|ev tr (_ & _ & Hev) _ IH]; [done|].
    cbn. by rewrite Hev.
Qed.

Lemma converted_image_moved_as_jpg_witness :
  ∃ new_path,
    suffix new_path = ".jpg"
    ∧ omap moved
        (trace (process_image (E := Toy.lib)
                  (Toy.post "/bereal/a.webp" "/bereal/b.jpg" "")
                  Toy.taken_at (Toy.photo "a.webp") Toy.fs0))
      = [(Toy.photo "a.jpg", new_path)].
Proof.
  destruct (converted_image_moved_as_jpg (E := Toy.lib)
              (Toy.post "/bereal/a.webp" "/bereal/b.jpg" "") (PStr "hello")
              Toy.taken_at (Toy.photo "a.webp") (Toy.photo "a.jpg") Toy.fs0
              (Some (Toy.photo "a.jpg")))
    as (new_path & Hsfx & _ & _ & _ & Hmoved & _).
  - vm_compute. reflexivity.
  - vm_compute. reflexivity.
  - vm_compute. reflexivity.
  - vm_compute. reflexivity.
  - vm_compute. reflexivity.
  - reflexivity.
  - exists new_path. split; [exact Hsfx|exact Hmoved].
Defined.

(** ** A conversion that fails *)

Section ConversionFails.
Context `{E : Externals}.
Implicit Types (fs : FS Content) (p q : Path).





End ConversionFails.



(** The same run on the model libraries: the encoder fails, the sibling
    [a.jpg] is left empty, and the writer is called on a path of the output
    folder that does not exist. *)
Example process_image_failed_encoding :
  omap log_line
    (trace (process_image (E := Toy.lib_no_jpeg) (Toy.post "a.webp" "b.jpg" "")
              Toy.taken_at (Toy.photo "a.webp") Toy.fs_sibling))
  = [(ERROR, Error_converting (Toy.photo "a.webp")
               (mkExn OSError "encoder jpeg not available"));
     (ERROR, Failed_to_update_EXIF (Toy.output "a.webp") Toy.FileNotFound);
     (ERROR, Failed_to_update_IPTC (Toy.output "a.webp") Toy.FileNotFound)]
  ∧ path_exists
      (fs_of (process_image (E := Toy.lib_no_jpeg) (Toy.post "a.webp" "b.jpg" "")
                Toy.taken_at (Toy.photo "a.webp") Toy.fs_sibling))
      (Toy.output "a.webp") = false.
Proof. split; vm_compute; reflexivity. Qed.
